(** * Sales query and aggregation core of the games-sales backend

    A shallow embedding of [backend/games_sales/sales/models.py]: the field
    mapper ([order_by_mapping], [map_field_to_db_field]), the filter and
    search engines ([filter_by_params], [search_by_text]), the top-N
    aggregator ([get_top_n_fields_for_sale_type]) and the composite creation
    protocol of the managers ([GameManager.create], [SaleManager.create]).

    Python values are modelled as follows.  A [str] is a [string] of ASCII
    characters.  An [int] is a [Z].  A call that may raise returns a
    [result].  A [dict] whose iteration order matters is an association
    list in insertion order; a dict that is only looked up is a [gmap].
    A queryset is the list of its rows; the querysets here carry no
    [ORDER BY], so the position of a row in the list is the model's, not the
    database's.  A float is a value of an abstract numeric type (class
    [Numeric]) so that no statement depends on binary rounding. *)

From Stdlib Require Import ZArith Ascii.
From stdpp Require Import base strings list gmap sorting pretty.

(** ** Python primitives *)

Module Py.

(** The exceptions the modelled code can raise. *)
Inductive exn : Type :=
| KeyError (key : string)
| ValueError
| IndexError
| TypeError
| IntegrityError.

Inductive result (A : Type) : Type :=
| Ok (a : A)
| Raise (e : exn).
Arguments Ok {A} a.
Arguments Raise {A} e.

(** Sequencing: an exception raised by [r] propagates. *)
#[global] Instance result_bind : MBind result := λ A B k r,
  match r with
  | Ok a => k a
  | Raise e => Raise e
  end.

Definition from_option {A} (e : exn) (o : option A) : result A :=
  match o with
  | Some a => Ok a
  | None => Raise e
  end.

(** [Py_ISSPACE]: the characters that [int(str)] skips around a number. *)
Definition is_space (c : ascii) : bool :=
  let n := nat_of_ascii c in
  bool_decide (n = 32 ∨ (9 ≤ n ∧ n ≤ 13))%nat.

Definition digit_val (c : ascii) : option Z :=
  let n := nat_of_ascii c in
  if bool_decide (48 ≤ n ∧ n ≤ 57)%nat then Some (Z.of_nat n - 48)%Z else None.

Fixpoint skip_space (s : string) : string :=
  match s with
  | String c r => if is_space c then skip_space r else s
  | EmptyString => s
  end.

(** The digits after the first one: a single underscore is allowed between
    two digits; scanning stops at the first other character. *)
Fixpoint scan_digits (acc : Z) (s : string) : option (Z * string) :=
  match s with
  | EmptyString => Some (acc, EmptyString)
  | String c r =>
      match digit_val c with
      | Some d => scan_digits (10 * acc + d)%Z r
      | None =>
          if bool_decide (c = "_"%char) then
            match r with
            | String c' r' =>
                match digit_val c' with
                | Some d => scan_digits (10 * acc + d)%Z r'
                | None => None
                end
            | EmptyString => None
            end
          else Some (acc, s)
      end
  end.

Definition scan_unsigned (s : string) : option Z :=
  match s with
  | String c r =>
      match digit_val c with
      | Some d =>
          match scan_digits d r with
          | Some (n, rest) =>
              if bool_decide (skip_space rest = EmptyString) then Some n else None
          | None => None
          end
      | None => None
      end
  | EmptyString => None
  end.

(** [int(s)] for a string [s], base 10: surrounding white space, an
    optional sign, decimal digits.  [None] stands for [ValueError]. *)
Definition int (s : string) : option Z :=
  match skip_space s with
  | String "+" r => scan_unsigned r
  | String "-" r => Z.opp <$> scan_unsigned r
  | s' => scan_unsigned s'
  end.

(** [xs[:n]]: a negative bound counts from the end. *)
Definition slice_to {A} (n : Z) (xs : list A) : list A :=
  if bool_decide (n < 0)%Z
  then take (Z.to_nat (Z.of_nat (length xs) + n)) xs
  else take (Z.to_nat n) xs.

(** [s[1:]] *)
Definition tail_str (s : string) : string :=
  match s with
  | String _ r => r
  | EmptyString => EmptyString
  end.

Fixpoint startswith (p s : string) : bool :=
  match p, s with
  | EmptyString, _ => true
  | String a p', String b s' => bool_decide (a = b) && startswith p' s'
  | String _ _, EmptyString => false
  end.

(** [sub in s] *)
Fixpoint contains (sub s : string) : bool :=
  startswith sub s ||
  match s with
  | String _ s' => contains sub s'
  | EmptyString => false
  end.

Definition lower_char (c : ascii) : ascii :=
  let n := nat_of_ascii c in
  if bool_decide (65 ≤ n ∧ n ≤ 90)%nat then ascii_of_nat (n + 32) else c.

Fixpoint lower (s : string) : string :=
  match s with
  | EmptyString => EmptyString
  | String c r => String (lower_char c) (lower r)
  end.

End Py.

Import Py.

(** ** Numbers

    The float columns ([FloatField], pandas [float64]) hold values of a type
    [F] with the operations the aggregation uses.  [fsum] is the sum of a
    group as the aggregation computes it, [fle] the order [sort_values]
    sorts by, [fround d] is [round(d)] and [fof_int] turns an integer cell
    of a numeric column into a float. *)

Class Numeric (F : Type) := {
  feq_dec :: EqDecision F;
  fsum : list F → F;
  fle : F → F → bool;
  fround : Z → F → F;
  fof_int : Z → F;
}.

(** The order of [sort_values] compares any two values and is transitive. *)
Class NumericOrder (F : Type) `{Numeric F} : Prop := {
  fle_total : ∀ x y : F, fle x y = true ∨ fle y x = true;
  fle_trans : ∀ x y z : F, fle x y = true → fle y z = true → fle x z = true;
}.

(** ** Data model *)

Section Models.
Context {F : Type}.

(** A Python value held by a model attribute, a keyword argument or a
    data-frame cell.  [PNone] is [None], SQL [NULL] and pandas [NaN]. *)
Inductive pyval : Type :=
| PNone
| PStr (s : string)
| PInt (z : Z)
| PFloat (x : F).

Record Rating := {
  rating_pk : option nat;
  critic_score : pyval;
  critic_count : pyval;
  user_score : pyval;
  user_count : pyval;
}.

(** [rating] is the [OneToOneField] to [Rating] ([null=True]). *)
Record Game := {
  game_pk : option nat;
  game_slug : string;
  name : pyval;
  platform : pyval;
  publisher : pyval;
  developer : pyval;
  genre : pyval;
  year_of_release : pyval;
  rating : option Rating;
  esrb_rating : pyval;
}.

Record Sale := {
  sale_pk : option nat;
  sale_slug : string;
  game : Game;
  na_sales : pyval;
  eu_sales : pyval;
  jp_sales : pyval;
  other_sales : pyval;
  global_sales : pyval;
}.

End Models.

Arguments pyval : clear implicits.
Arguments Rating : clear implicits.
Arguments Game : clear implicits.
Arguments Sale : clear implicits.

(** ** Field mapper *)

Definition game_fields : list string :=
  ["name"; "platform"; "publisher"; "developer"; "genre"; "esrb_rating";
   "year_of_release"].

Definition rating_fields : list string :=
  ["critic_score"; "critic_count"; "user_score"; "user_count"].

(** [Sale.order_by_mapping(value, default)].  [value[0]] raises
    [IndexError] when both [value] and [default] are empty. *)
Definition order_by_mapping (value default : string) : result string :=
  let value := if bool_decide (value = EmptyString) then default else value in
  match value with
  | EmptyString => Raise IndexError
  | String c0 _ =>
      let in_reverse := bool_decide (c0 = "-"%char) in
      let value := if in_reverse then tail_str value else value in
      let value :=
        if bool_decide (value ∈ game_fields) then "game__" +:+ value
        else if bool_decide (value ∈ rating_fields)
        then "game__rating__" +:+ value
        else value in
      let value := if in_reverse then "-" +:+ value else value in
      Ok value
  end.

(** [Sale.map_field_to_db_field(field)] *)
Definition map_field_to_db_field (field : string) : string :=
  "game__" +:+ field.

(** ** Querysets and lookups *)

Section Queries.
Context {F : Type}.

(** The joined columns the lookups of this module name. *)
Definition game__name (s : Sale F) : pyval F := name (game s).
Definition game__platform (s : Sale F) : pyval F := platform (game s).
Definition game__publisher (s : Sale F) : pyval F := publisher (game s).
Definition game__developer (s : Sale F) : pyval F := developer (game s).
Definition game__genre (s : Sale F) : pyval F := genre (game s).
Definition game__esrb_rating (s : Sale F) : pyval F := esrb_rating (game s).
Definition game__year_of_release (s : Sale F) : pyval F :=
  year_of_release (game s).

Inductive lookup : Type :=
| op_contains | op_icontains | op_exact | op_lt | op_gt.

(** A [Q] object: one keyword lookup, or [q1 | q2]. *)
Inductive Q : Type :=
| Cond (column : Sale F → pyval F) (op : lookup) (arg : pyval F)
| QOr (q1 q2 : Q).

(** Whether a column value satisfies a lookup.  A comparison with [NULL]
    selects no row; the source compares text columns with text and the
    year column with an integer. *)
Definition lookup_holds (op : lookup) (v arg : pyval F) : bool :=
  match op, v, arg with
  | op_contains, PStr s, PStr a => Py.contains a s
  | op_icontains, PStr s, PStr a => Py.contains (lower a) (lower s)
  | op_exact, PInt y, PInt n => bool_decide (y = n)
  | op_lt, PInt y, PInt n => bool_decide (y < n)%Z
  | op_gt, PInt y, PInt n => bool_decide (y > n)%Z
  | _, _, _ => false
  end.

Fixpoint q_holds (q : Q) (s : Sale F) : bool :=
  match q with
  | Cond column op arg => lookup_holds op (column s) arg
  | QOr q1 q2 => q_holds q1 s || q_holds q2 s
  end.

(** [sales.filter(q)]: the rows that satisfy [q].  The querysets carry no
    [ORDER BY], so the order in which the database yields the rows is its
    own; the list stands for the rows, its order here is that of the
    input. *)
Definition qs_filter (q : Q) (sales : list (Sale F)) : list (Sale F) :=
  List.filter (q_holds q) sales.

(** The request parameters: filter name to text, in iteration order. *)
Definition dict : Type := list (string * string).

Definition keys (d : dict) : list string := d.*1.

(** [d[k]] *)
Fixpoint getitem (d : dict) (k : string) : result string :=
  match d with
  | [] => Raise (KeyError k)
  | (k', v) :: d' => if bool_decide (k' = k) then Ok v else getitem d' k
  end.

(** [int(v)], raising [ValueError] *)
Definition int_of (v : string) : result Z :=
  Py.from_option ValueError (Py.int v).

(** The dispatch table of [filter_by_params].  Each closure reads the
    current binding of [sales], passed here as its argument. *)
Definition filters_map (params : dict)
    : gmap string (list (Sale F) → result (list (Sale F))) :=
  list_to_map [
    ("genre", λ sales,
       v ← getitem params "genre";
       Ok (qs_filter (Cond game__genre op_contains (PStr v)) sales));
    ("esrb_rating", λ sales,
       v ← getitem params "esrb_rating";
       Ok (qs_filter (Cond game__esrb_rating op_contains (PStr v)) sales));
    ("yor_lt", λ sales,
       v ← getitem params "yor_lt";
       n ← int_of v;
       Ok (qs_filter (Cond game__year_of_release op_lt (PInt n)) sales));
    ("yor_gt", λ sales,
       v ← getitem params "yor_gt";
       n ← int_of v;
       Ok (qs_filter (Cond game__year_of_release op_gt (PInt n)) sales));
    ("year_of_release", λ sales,
       v ← getitem params "year_of_release";
       n ← int_of v;
       Ok (qs_filter (Cond game__year_of_release op_exact (PInt n)) sales))
  ].

(** One iteration of the loop: [sales = filters_map[param]()]. *)
Definition apply_filter (params : dict) (sales : list (Sale F))
    (param : string) : result (list (Sale F)) :=
  f ← Py.from_option (KeyError param) (filters_map params !! param);
  f sales.

Fixpoint for_params (params : dict) (todo : list string)
    (sales : list (Sale F)) : result (list (Sale F)) :=
  match todo with
  | [] => Ok sales
  | param :: todo' =>
      sales' ← apply_filter params sales param;
      for_params params todo' sales'
  end.

(** [Sale.filter_by_params(sales, params)] *)
Definition filter_by_params (sales : list (Sale F)) (params : dict)
    : result (list (Sale F)) :=
  for_params params (keys params) sales.

(** Modelled from the spec: [core.utils.is_int], which [models.py] imports
    and does not define.  The search engine takes the year branch when "the
    text is a valid integer", that is when [int(text)] succeeds. *)
Definition is_int (text : string) : bool :=
  bool_decide (is_Some (Py.int text)).

(** [Sale.search_by_text(sales, text)] *)
Definition search_by_text (sales : list (Sale F)) (text : string)
    : result (list (Sale F)) :=
  if is_int text then
    n ← int_of text;
    Ok (qs_filter (Cond game__year_of_release op_exact (PInt n)) sales)
  else
    Ok (qs_filter
          (QOr (QOr (QOr (QOr
             (Cond game__name op_icontains (PStr text))
             (Cond game__platform op_icontains (PStr text)))
             (Cond game__publisher op_icontains (PStr text)))
             (Cond game__developer op_icontains (PStr text)))
             (Cond game__genre op_icontains (PStr text)))
          sales).

End Queries.

(** ** Data frames and the aggregator

    The pandas calls of the aggregator, with the defaults the source leaves
    in place: [groupby] lists each distinct key once, in sorted order, and
    drops the records whose key is [NaN]; [sum] skips [NaN] and gives the
    empty sum for a group without a value; [sort_values] keeps the order of
    equal values (no statement below depends on how ties are ordered);
    slices of a series and of its index are positional. *)

Section Frames.
Context `{Numeric F}.

#[global] Instance pyval_eq_dec : EqDecision (pyval F).
Proof. solve_decision. Defined.

(** A record of the frame: column name to cell.  A column a record lacks
    reads as [NaN]. *)
Definition cell (row : gmap string (pyval F)) (column : string) : pyval F :=
  default PNone (row !! column).

(** A [DataFrame]: its column labels and its records in row order. *)
Record DataFrame := {
  columns : list string;
  rows : list (gmap string (pyval F));
}.

(** A [Series]: index labels paired with values, in order. *)
Definition Series : Type := list (pyval F * F).

Definition index (s : Series) : list (pyval F) := s.*1.
Definition values (s : Series) : list F := s.*2.

(** The order in which [groupby] lists the group keys: numbers by value,
    text by code point, numbers before text. *)
Definition key_le (a b : pyval F) : bool :=
  match a, b with
  | PNone, _ => true
  | _, PNone => false
  | PStr s, PStr t => String.leb s t
  | PStr _, _ => false
  | _, PStr _ => true
  | PInt y, PInt z => bool_decide (y ≤ z)%Z
  | PInt y, PFloat x => fle (fof_int y) x
  | PFloat x, PInt z => fle x (fof_int z)
  | PFloat x, PFloat y => fle x y
  end.

(** The group keys of [df.groupby(column)]: the distinct values of the
    column, [NaN] left out, sorted. *)
Definition group_keys (df : DataFrame) (column : string) : list (pyval F) :=
  merge_sort (λ a b, key_le a b)
    (remove_dups
       (List.filter (λ v, bool_decide (v ≠ PNone))
          ((λ row, cell row column) <$> rows df))).

(** The records of one group, in row order. *)
Definition group_rows (df : DataFrame) (column : string) (key : pyval F)
    : list (gmap string (pyval F)) :=
  List.filter (λ row, bool_decide (cell row column = key)) (rows df).

(** A cell of a summed column: [NaN] is skipped, text cannot be summed
    and rounded. *)
Definition to_numeric (v : pyval F) : result (option F) :=
  match v with
  | PNone => Ok None
  | PFloat x => Ok (Some x)
  | PInt z => Ok (Some (fof_int z))
  | PStr _ => Raise TypeError
  end.

Fixpoint numeric_cells (vs : list (pyval F)) : result (list F) :=
  match vs with
  | [] => Ok []
  | v :: vs' =>
      o ← to_numeric v;
      xs ← numeric_cells vs';
      Ok (match o with Some x => x :: xs | None => xs end)
  end.

(** The sum of one group of [df.groupby(by)[column].sum()]. *)
Definition group_sum (df : DataFrame) (by_ column : string) (key : pyval F)
    : result F :=
  xs ← numeric_cells ((λ row, cell row column) <$> group_rows df by_ key);
  Ok (fsum xs).

Fixpoint sum_groups (df : DataFrame) (by_ column : string)
    (ks : list (pyval F)) : result Series :=
  match ks with
  | [] => Ok []
  | k :: ks' =>
      x ← group_sum df by_ column k;
      s ← sum_groups df by_ column ks';
      Ok ((k, x) :: s)
  end.

(** [df.groupby(by)[column].sum()]; a label that is not a column raises
    [KeyError]. *)
Definition groupby_sum (df : DataFrame) (by_ column : string) : result Series :=
  if negb (bool_decide (by_ ∈ columns df)) then Raise (KeyError by_)
  else if negb (bool_decide (column ∈ columns df)) then Raise (KeyError column)
  else sum_groups df by_ column (group_keys df by_).

(** The order [sort_values(ascending=...)] puts two entries in. *)
Definition value_order (ascending : bool) (a b : pyval F * F) : Prop :=
  if ascending then fle a.2 b.2 = true else fle b.2 a.2 = true.

#[global] Instance value_order_dec ascending a b :
  Decision (value_order ascending a b).
Proof. unfold value_order. destruct ascending; apply _. Defined.

Definition sort_values (ascending : bool) (s : Series) : Series :=
  merge_sort (value_order ascending) s.

(** [series.round(decimals)] *)
Definition round (decimals : Z) (s : Series) : Series :=
  (λ kv, (kv.1, fround decimals kv.2)) <$> s.

(** [Sale.get_top_fields_series(df, db_field, sale_type, round,
    sort_ascending)] *)
Definition get_top_fields_series (df : DataFrame) (db_field sale_type : string)
    (round_ : Z) (sort_ascending : bool) : result Series :=
  s ← groupby_sum df db_field sale_type;
  Ok (round round_ (sort_values sort_ascending s)).

(** [Sale.get_top_fields_list(series, n, field)]: the dict display
    [{field: cur_field, 'count': count}] stores [field] first and
    ['count'] second. *)
Definition get_top_fields_list (series : Series) (n : Z) (field : string)
    : list (gmap string (pyval F)) :=
  (λ '(cur_field, count),
     <["count" := PFloat count]> ({[ field := cur_field ]} : gmap string (pyval F)))
  <$> zip (slice_to n (index series)) (slice_to n (values series)).

(** [Sale.get_top_n_fields_for_sale_type(df, field, sale_type, n)] *)
Definition get_top_n_fields_for_sale_type (df : DataFrame)
    (field sale_type : string) (n : Z) : result (list (gmap string (pyval F))) :=
  let db_field := map_field_to_db_field field in
  top_fields_series ← get_top_fields_series df db_field sale_type 2 false;
  let top_fields := get_top_fields_list top_fields_series n field in
  Ok top_fields.

End Frames.

Arguments DataFrame F : clear implicits.
Arguments Series F : clear implicits.

(** ** A concrete number type: decimals with three places

    Sales figures are published in millions of units with two or three
    places.  [Decimal n] is [n / 1000]. *)

Record decimal := Decimal { thousandths : Z }.

#[global] Instance decimal_eq_dec : EqDecision decimal.
Proof. solve_decision. Defined.

(** Round [n] to a multiple of [m], halves to the even multiple. *)
Definition round_to_multiple (m n : Z) : Z :=
  let q := (n / m)%Z in
  let r := (n mod m)%Z in
  if bool_decide (2 * r < m)%Z then (q * m)%Z
  else if bool_decide (2 * r > m)%Z then ((q + 1) * m)%Z
  else if Z.even q then (q * m)%Z else ((q + 1) * m)%Z.

#[global] Instance decimal_numeric : Numeric decimal := {|
  fsum xs := Decimal (foldr Z.add 0%Z (thousandths <$> xs));
  fle x y := bool_decide (thousandths x ≤ thousandths y)%Z;
  fround d x :=
    if bool_decide (3 ≤ d)%Z then x
    else Decimal (round_to_multiple (10 ^ (3 - d)) (thousandths x));
  fof_int z := Decimal (1000 * z);
|}.

(** ** The record store and the managers *)

Section Store.
Context {F : Type}.

(** The three tables, keyed by primary key. *)
Record DB := {
  ratings : gmap nat (Rating F);
  games : gmap nat (Game F);
  sales : gmap nat (Sale F);
}.

Inductive row : Type :=
| RatingRow (r : Rating F)
| GameRow (g : Game F)
| SaleRow (s : Sale F).

(** [django.utils.text.slugify], applied to an attribute value. *)
Variable slugify : pyval F → string.

(** The database's verdict on writing a row (field conversion, [NOT NULL],
    uniqueness): [None] when it accepts, the exception otherwise. *)
Variable write_error : DB → row → option exn.

(** The primary key a write uses: the instance's own, or a new one. *)
Definition pk_for {A} (pk : option nat) (table : gmap nat A) : nat :=
  default (fresh (dom table)) pk.

(** [Model.save] of a [Rating] *)
Definition Rating_save (self : Rating F) (db : DB) : result (Rating F) * DB :=
  match write_error db (RatingRow self) with
  | Some e => (Raise e, db)
  | None =>
      let pk := pk_for (rating_pk self) (ratings db) in
      let self := {| rating_pk := Some pk;
                     critic_score := critic_score self;
                     critic_count := critic_count self;
                     user_score := user_score self;
                     user_count := user_count self |} in
      (Ok self, {| ratings := <[pk := self]> (ratings db);
                   games := games db; sales := sales db |})
  end.

(** Whether a related object has been saved. *)
Definition unsaved_rating (r : option (Rating F)) : bool :=
  match r with
  | Some r => bool_decide (rating_pk r = None)
  | None => false
  end.

(** [Game.save]: the slug is derived, then the row is written.  A related
    object that was never saved makes [Model.save] raise [ValueError]. *)
Definition Game_save (self : Game F) (db : DB) : result (Game F) * DB :=
  let slug := slugify (name self) +:+ "-" +:+ slugify (platform self) in
  let self := {| game_pk := game_pk self; game_slug := slug;
                 name := name self; platform := platform self;
                 publisher := publisher self; developer := developer self;
                 genre := genre self; year_of_release := year_of_release self;
                 rating := rating self; esrb_rating := esrb_rating self |} in
  if unsaved_rating (rating self)
  then (Raise ValueError, db)
  else
    match write_error db (GameRow self) with
    | Some e => (Raise e, db)
    | None =>
        let pk := pk_for (game_pk self) (games db) in
        let self := {| game_pk := Some pk; game_slug := game_slug self;
                       name := name self; platform := platform self;
                       publisher := publisher self; developer := developer self;
                       genre := genre self;
                       year_of_release := year_of_release self;
                       rating := rating self;
                       esrb_rating := esrb_rating self |} in
        (Ok self, {| ratings := ratings db;
                     games := <[pk := self]> (games db); sales := sales db |})
    end.

(** [Sale.save] *)
Definition Sale_save (self : Sale F) (db : DB) : result (Sale F) * DB :=
  let slug := game_slug (game self) +:+ "-sales" in
  if bool_decide (game_pk (game self) = None) then (Raise ValueError, db)
  else
    match write_error db (SaleRow {| sale_pk := sale_pk self; sale_slug := slug;
                                     game := game self;
                                     na_sales := na_sales self;
                                     eu_sales := eu_sales self;
                                     jp_sales := jp_sales self;
                                     other_sales := other_sales self;
                                     global_sales := global_sales self |}) with
    | Some e => (Raise e, db)
    | None =>
        let pk := pk_for (sale_pk self) (sales db) in
        let self := {| sale_pk := Some pk; sale_slug := slug;
                       game := game self;
                       na_sales := na_sales self; eu_sales := eu_sales self;
                       jp_sales := jp_sales self;
                       other_sales := other_sales self;
                       global_sales := global_sales self |} in
        (Ok self, {| ratings := ratings db; games := games db;
                     sales := <[pk := self]> (sales db) |})
    end.

(** [kwargs.get(key, default)] *)
Definition get (kwargs : gmap string (pyval F)) (key : string)
    (default_ : pyval F) : pyval F :=
  default default_ (kwargs !! key).

(** [kwargs.pop(key, default)]: the value and the remaining arguments. *)
Definition pop (kwargs : gmap string (pyval F)) (key : string)
    (default_ : pyval F) : pyval F * gmap string (pyval F) :=
  (default default_ (kwargs !! key), delete key kwargs).

(** [GameManager.create], called with keyword arguments [kwargs] *)
Definition GameManager_create (kwargs : gmap string (pyval F)) (db : DB)
    : result (Game F) * DB :=
  let rating := {| rating_pk := None;
                   critic_score := get kwargs "critic_score" PNone;
                   critic_count := get kwargs "critic_count" PNone;
                   user_score := get kwargs "user_score" PNone;
                   user_count := get kwargs "user_count" PNone |} in
  match Rating_save rating db with
  | (Raise e, db) => (Raise e, db)
  | (Ok rating, db) =>
      let game := {| game_pk := None; game_slug := EmptyString;
                     name := get kwargs "name" PNone;
                     platform := get kwargs "platform" (PStr EmptyString);
                     publisher := get kwargs "publisher" (PStr EmptyString);
                     developer := get kwargs "developer" (PStr EmptyString);
                     genre := get kwargs "genre" (PStr EmptyString);
                     year_of_release := get kwargs "year_of_release" PNone;
                     rating := Some rating;
                     esrb_rating :=
                       get kwargs "esrb_rating" (PStr EmptyString) |} in
      Game_save game db
  end.

(** [SaleManager.create], called with keyword arguments [kwargs] *)
Definition SaleManager_create (kwargs : gmap string (pyval F)) (db : DB)
    : result (Sale F) * DB :=
  let '(na, kwargs) := pop kwargs "na_sales" PNone in
  let '(eu, kwargs) := pop kwargs "eu_sales" PNone in
  let '(jp, kwargs) := pop kwargs "jp_sales" PNone in
  let '(other, kwargs) := pop kwargs "other_sales" PNone in
  let '(global_, kwargs) := pop kwargs "global_sales" PNone in
  match GameManager_create kwargs db with
  | (Raise e, db) => (Raise e, db)
  | (Ok game, db) =>
      let sale := {| sale_pk := None; sale_slug := EmptyString; game := game;
                     na_sales := na; eu_sales := eu; jp_sales := jp;
                     other_sales := other; global_sales := global_ |} in
      Sale_save sale db
  end.

End Store.

Arguments DB F : clear implicits.
Arguments row F : clear implicits.

(** The constraints [models.py] declares: [Game.name] is [NOT NULL], the
    slugs are unique, a game has at most one sale.  A row that is written
    again may keep its own slug. *)
Definition declared_constraints {F} (db : DB F) (r : row F) : option exn :=
  match r with
  | RatingRow _ => None
  | GameRow g =>
      if (match name g with PNone => true | _ => false end)
      then Some IntegrityError
      else if existsb (λ kv, bool_decide (game_slug kv.2 = game_slug g ∧
                                            Some kv.1 ≠ game_pk g))
                (map_to_list (games db))
      then Some IntegrityError else None
  | SaleRow s =>
      if existsb (λ kv, bool_decide (Some kv.1 ≠ sale_pk s ∧
                                      (sale_slug kv.2 = sale_slug s ∨
                                       game_pk (game kv.2) = game_pk (game s))))
           (map_to_list (sales db))
      then Some IntegrityError else None
  end.

(** ** Vocabulary of the statements *)

(** The closed vocabulary of filter names, and those read as integers. *)
Definition filter_names : list string :=
  ["genre"; "esrb_rating"; "yor_lt"; "yor_gt"; "year_of_release"].

Definition int_filter_names : list string :=
  ["yor_lt"; "yor_gt"; "year_of_release"].

(** An entry with a known name and, for an integer filter, a value that
    [int] parses. *)
Definition valid_param (kv : string * string) : Prop :=
  kv.1 ∈ filter_names ∧ (kv.1 ∈ int_filter_names → is_Some (Py.int kv.2)).

#[global] Instance valid_param_dec kv : Decision (valid_param kv).
Proof. unfold valid_param. apply _. Defined.

(** The predicate one entry of the parameters selects rows by. *)
Definition param_holds {F} (kv : string * string) (s : Sale F) : bool :=
  if bool_decide (kv.1 = "genre") then
    lookup_holds op_contains (game__genre s) (PStr kv.2)
  else if bool_decide (kv.1 = "esrb_rating") then
    lookup_holds op_contains (game__esrb_rating s) (PStr kv.2)
  else
    match Py.int kv.2 with
    | Some n =>
        if bool_decide (kv.1 = "yor_lt") then
          lookup_holds op_lt (game__year_of_release s) (PInt n)
        else if bool_decide (kv.1 = "yor_gt") then
          lookup_holds op_gt (game__year_of_release s) (PInt n)
        else lookup_holds op_exact (game__year_of_release s) (PInt n)
    | None => false
    end.

(** [text] occurs in [s], letter case ignored. *)
Definition occurs_ci (text s : string) : Prop :=
  ∃ before after, lower s = before +:+ lower text +:+ after.

(** The five text columns the search looks in. *)
Definition text_columns {F} : list (Sale F → pyval F) :=
  [game__name; game__platform; game__publisher; game__developer; game__genre].

(** The descending marker of a sort key and the key without it. *)
Definition has_marker (s : string) : bool := Py.startswith "-" s.

Definition strip_marker (s : string) : string :=
  if has_marker s then tail_str s else s.

Fixpoint drop_str (n : nat) (s : string) : string :=
  match n, s with
  | S n', String _ r => drop_str n' r
  | _, _ => s
  end.

(** The join prefix of a storage path taken off. *)
Definition strip_join_prefix (s : string) : string :=
  if Py.startswith "game__rating__" s then drop_str 14 s
  else if Py.startswith "game__" s then drop_str 6 s
  else s.

(** The path [order_by_mapping] gives an unmarked name. *)
Definition storage_path (base : string) : string :=
  if bool_decide (base ∈ game_fields) then "game__" +:+ base
  else if bool_decide (base ∈ rating_fields) then "game__rating__" +:+ base
  else base.

(** The number a cell of a numeric column holds, if any. *)
Definition number_of `{Numeric F} (v : pyval F) : option F :=
  match v with
  | PFloat x => Some x
  | PInt z => Some (fof_int z)
  | _ => None
  end.

(** A column whose cells are numbers or [NaN]. *)
Definition numeric_column `{Numeric F} (df : DataFrame F) (column : string)
    : Prop :=
  ∀ row s, row ∈ rows df → cell row column ≠ PStr s.

(** The summed values of one group: the numbers of [column] in the records
    whose [by_] cell is [key], in row order, [NaN] left out. *)
Definition group_values `{Numeric F} (df : DataFrame F) (by_ column : string)
    (key : pyval F) : list F :=
  omap (λ row, if bool_decide (cell row by_ = key)
               then number_of (cell row column) else None) (rows df).

(** One entry of the aggregator's answer. *)
Definition top_entry `{Numeric F} (field : string) (kx : pyval F * F)
    : gmap string (pyval F) :=
  <["count" := PFloat (fround 2 kx.2)]> {[ field := kx.1 ]}.

(** The attributes of a rating with the keyword each is read from. *)
Definition rating_attributes {F} : list (string * (Rating F → pyval F)) :=
  [("critic_score", critic_score); ("critic_count", critic_count);
   ("user_score", user_score); ("user_count", user_count)].

(** [g] carries a rating that is a new row of [db'], with every attribute
    the value of its keyword and [None] when the keyword is missing. *)
Definition has_new_rating {F} (kwargs : gmap string (pyval F))
    (db db' : DB F) (g : Game F) : Prop :=
  ∃ r pk,
    rating g = Some r ∧ rating_pk r = Some pk ∧
    ratings db !! pk = None ∧ ratings db' !! pk = Some r ∧
    Forall (λ ka, ka.2 r = default PNone (kwargs !! ka.1)) rating_attributes.

(** ** Fixtures *)

(** A slugify for ASCII text: lower case; letters, digits and underscores
    kept; runs of white space and hyphens become one hyphen; hyphens and
    underscores at both ends removed. *)
Definition is_word_char (c : ascii) : bool :=
  let n := nat_of_ascii c in
  bool_decide ((48 ≤ n ∧ n ≤ 57) ∨ (97 ≤ n ∧ n ≤ 122) ∨ n = 95)%nat.

Definition is_separator (c : ascii) : bool :=
  is_space c || bool_decide (c = "-"%char).

Fixpoint hyphenate (in_run : bool) (cs : list ascii) : list ascii :=
  match cs with
  | [] => []
  | c :: cs' =>
      if is_separator c then
        if in_run then hyphenate true cs' else "-"%char :: hyphenate true cs'
      else if is_word_char c then c :: hyphenate false cs'
      else hyphenate in_run cs'
  end.

Fixpoint drop_edge (cs : list ascii) : list ascii :=
  match cs with
  | c :: cs' =>
      if bool_decide (c = "-"%char ∨ c = "_"%char) then drop_edge cs' else cs
  | [] => []
  end.

Definition slugify_ascii (s : string) : string :=
  let cs := hyphenate false (String.list_ascii_of_string (lower s)) in
  String.string_of_list_ascii (reverse (drop_edge (reverse (drop_edge cs)))).

(** [str] of an attribute value; a decimal is printed as the count of its
    thousandths. *)
Definition str_of (v : pyval decimal) : string :=
  match v with
  | PNone => "None"
  | PStr s => s
  | PInt z => pretty z
  | PFloat x => pretty (thousandths x) +:+ "e-3"
  end.

Definition slugify_value (v : pyval decimal) : string :=
  slugify_ascii (str_of v).

Definition a_game (name_ platform_ publisher_ genre_ : string) (year : Z)
    : Game decimal :=
  {| game_pk := None; game_slug := EmptyString;
     name := PStr name_; platform := PStr platform_;
     publisher := PStr publisher_; developer := PNone;
     genre := PStr genre_; year_of_release := PInt year;
     rating := None; esrb_rating := PStr "E" |}.

Definition a_sale (g : Game decimal) (global_ : Z) : Sale decimal :=
  {| sale_pk := None; sale_slug := EmptyString; game := g;
     na_sales := PNone; eu_sales := PNone; jp_sales := PNone;
     other_sales := PNone; global_sales := PFloat (Decimal global_) |}.

(** Four sales. *)
Definition fixture_sales : list (Sale decimal) :=
  [a_sale (a_game "Wii Sports" "Wii" "Nintendo" "Sports" 2006) 82530;
   a_sale (a_game "Mario Kart Wii" "Wii" "Nintendo" "Racing" 2008) 35520;
   a_sale (a_game "Gran Turismo 3" "PS2" "Sony" "Racing" 2001) 14980;
   a_sale (a_game "Tetris" "GB" "Nintendo" "Puzzle" 1989) 30260].

(** The frame of the genre and global sales of six sales, one of them
    without a figure. *)
Definition a_record (genre_ : string) (global_ : pyval decimal)
    : gmap string (pyval decimal) :=
  <["global_sales" := global_]> {[ "game__genre" := PStr genre_ ]}.

Definition fixture_frame : DataFrame decimal :=
  {| columns := ["game__genre"; "global_sales"];
     rows := [a_record "Sports" (PFloat (Decimal 82530));
              a_record "Racing" (PFloat (Decimal 35520));
              a_record "Sports" (PFloat (Decimal 32775));
              a_record "Puzzle" PNone;
              a_record "Racing" (PFloat (Decimal 1006));
              a_record "Puzzle" (PFloat (Decimal 30260))] |}.

Definition empty_db : DB decimal :=
  {| ratings := ∅; games := ∅; sales := ∅ |}.

(** The keyword arguments of one import row: a game, its global sales and
    one of the four rating values. *)
Definition fixture_kwargs : gmap string (pyval decimal) :=
  list_to_map [("name", PStr "Wii Sports"); ("platform", PStr "Wii");
               ("genre", PStr "Sports"); ("year_of_release", PInt 2006);
               ("global_sales", PFloat (Decimal 82530));
               ("user_score", PFloat (Decimal 8000))].

(** ** Further operations of the models *)

(** The keyword arguments [GameManager.create] reads, and those
    [SaleManager.create] takes out before it calls it. *)
Definition game_keywords : list string :=
  ["critic_score"; "critic_count"; "user_score"; "user_count";
   "name"; "platform"; "publisher"; "developer"; "genre"; "year_of_release";
   "esrb_rating"].

Definition sale_keywords : list string :=
  ["na_sales"; "eu_sales"; "jp_sales"; "other_sales"; "global_sales"].

Section Texts.
Context `{Numeric F}.

(** [Sale.get_all_genres()], over the rows of [Sale.objects]: the distinct
    values of the joined genre column.  The query clears the ordering, so
    the order of the answer is the database's; here it is the order of first
    occurrence, and no statement depends on it. *)
Definition get_all_genres (sales_ : list (Sale F)) : list (pyval F) :=
  remove_dups (game__genre <$> sales_).

(** Python's [str], which the format strings apply to an attribute. *)
Variable str : pyval F → string.

(** [Game.__str__] *)
Definition Game___str__ (self : Game F) : string := str (name self).

(** The ways [Game.objects.get] fails. *)
Inductive get_error : Type :=
| DoesNotExist
| MultipleObjectsReturned
| UnsavedInstance.

(** Whether the row of [g] refers to the rating with primary key [pk]. *)
Definition refers_to (pk : nat) (g : Game F) : bool :=
  match rating g with
  | Some r => bool_decide (rating_pk r = Some pk)
  | None => false
  end.

(** What the ORM answers to a lookup by an instance that was never saved;
    it depends on the version of the ORM. *)
Variable unsaved_lookup : get_error.

(** [Game.objects.get(rating=rating)] *)
Definition Game_objects_get (rating_ : Rating F) (db : DB F)
    : get_error + Game F :=
  match rating_pk rating_ with
  | None => inl unsaved_lookup
  | Some pk =>
      match List.filter (refers_to pk) (map_to_list (games db)).*2 with
      | [] => inl DoesNotExist
      | [g] => inr g
      | _ => inl MultipleObjectsReturned
      end
  end.

(** [Rating.__str__]: only [Game.DoesNotExist] is caught. *)
Definition Rating___str__ (self : Rating F) (db : DB F) : get_error + string :=
  match Game_objects_get self db with
  | inr game => inr ("Rating for " +:+ Game___str__ game)
  | inl DoesNotExist => inr "Rating for undefined"
  | inl e => inl e
  end.

End Texts.

(** The store keeps its references: every row is filed under its own
    primary key, the rating of a game is a row of the ratings table and the
    game of a sale is a row of the games table. *)
Definition db_wf {F} (db : DB F) : Prop :=
  (∀ k r, ratings db !! k = Some r → rating_pk r = Some k) ∧
  (∀ k g, games db !! k = Some g →
     game_pk g = Some k ∧
     ∀ r, rating g = Some r →
          ∃ rk, rating_pk r = Some rk ∧ is_Some (ratings db !! rk)) ∧
  (∀ k s, sales db !! k = Some s →
     sale_pk s = Some k ∧
     ∃ gk, game_pk (game s) = Some gk ∧ is_Some (games db !! gk)).

(** A record that holds text in one of the searched columns. *)
Definition has_text {F} (s : Sale F) : Prop :=
  ∃ (column : Sale F → pyval F) (t : string),
    column ∈ text_columns ∧ column s = PStr t.

(** * Properties *)


(** ** Strings *)

Lemma append_nil (t : string) : EmptyString +:+ t = t.
Proof. reflexivity. Qed.

Lemma append_cons (c : ascii) (s t : string) :
  String c s +:+ t = String c (s +:+ t).
Proof. reflexivity. Qed.

Lemma startswith_spec (p s : string) :
  startswith p s = true ↔ ∃ rest, s = p +:+ rest.
Proof.
  revert s. induction p as [|a p IH]; intros s; simpl.
  - split; eauto.
  - destruct s as [|b s]; simpl.
    + split; [done | intros [rest ?]; done].
    + rewrite andb_true_iff, bool_decide_eq_true, IH. split.
      * intros [-> [rest ->]]. eauto.
      * intros [rest Heq]. rewrite append_cons in Heq.
        injection Heq as -> ->. eauto.
Qed.

Lemma append_assoc (a b c : string) : (a +:+ b) +:+ c = a +:+ b +:+ c.
Proof.
  induction a as [|x a IH]; [done |]. by rewrite !append_cons, IH.
Qed.

Lemma startswith_app (p q s : string) :
  startswith (p +:+ q) s = true → startswith p s = true.
Proof.
  rewrite !startswith_spec. intros [rest ->].
  exists (q +:+ rest). by rewrite append_assoc.
Qed.

Lemma contains_spec (sub s : string) :
  contains sub s = true ↔ ∃ before after, s = before +:+ sub +:+ after.
Proof.
  induction s as [|c s IH]; simpl.
  - rewrite orb_false_r, startswith_spec. split.
    + intros [rest ->]. by exists EmptyString, rest.
    + intros [before [after Heq]]. destruct before; [| done].
      rewrite append_nil in Heq. eauto.
  - rewrite orb_true_iff, startswith_spec, IH. split.
    + intros [[rest ->] | [before [after ->]]].
      * by exists EmptyString, rest.
      * by exists (String c before), after.
    + intros [before [after Heq]]. destruct before as [|b before].
      * left. rewrite append_nil in Heq. eauto.
      * right. rewrite append_cons in Heq. injection Heq as -> ->. eauto.
Qed.

(** [int] on a few strings. *)
Example int_examples :
  Py.int "2006" = Some 2006%Z ∧ Py.int " -1_000 " = Some (-1000)%Z ∧
  Py.int "+7" = Some 7%Z ∧ Py.int "007" = Some 7%Z ∧
  Py.int EmptyString = None ∧ Py.int "12a" = None ∧ Py.int "1__0" = None ∧
  Py.int "- 1" = None ∧ Py.int "nintendo" = None.
Proof. by vm_compute. Qed.

(** Slices with a bound beyond the end, at zero and from the end. *)
Example slice_to_examples :
  slice_to 5 [1; 2; 3] = [1; 2; 3] ∧ slice_to 0 [1; 2; 3] = [] ∧
  slice_to (-1) [1; 2; 3] = [1; 2] ∧ slice_to (-5) [1; 2; 3] = [].
Proof. by vm_compute. Qed.

(** ** Field mapper *)

(** C7: the aggregator's mapping prepends the game prefix to every field
    name, also to the four rating fields, which [order_by_mapping] routes
    through the rating record instead. *)
Theorem map_field_to_db_field_game_prefix (field : string) :
  map_field_to_db_field field = "game__" +:+ field ∧
  Forall (λ f, map_field_to_db_field f = "game__" +:+ f ∧
               order_by_mapping f "id" = Ok ("game__rating__" +:+ f) ∧
               map_field_to_db_field f ≠ "game__rating__" +:+ f)
    rating_fields.
Proof.
  split; [reflexivity |].
  unfold rating_fields.
  repeat (apply Forall_cons_2; [cbv beta; split_and!; by vm_compute |]).
  apply Forall_nil_2.
Qed.

Lemma has_marker_cons (c : ascii) (s : string) :
  has_marker (String c s) = bool_decide (c = "-"%char).
Proof.
  unfold has_marker. simpl. rewrite andb_true_r.
  apply bool_decide_ext. naive_solver.
Qed.

Lemma storage_path_no_marker (base : string) :
  has_marker base = false → has_marker (storage_path base) = false.
Proof.
  intros Hb. unfold storage_path. repeat case_bool_decide; done.
Qed.

Lemma order_by_mapping_value (value default : string) :
  value ≠ EmptyString →
  order_by_mapping value default =
    Ok (if has_marker value then "-" +:+ storage_path (strip_marker value)
        else storage_path value).
Proof.
  intros Hne. unfold order_by_mapping.
  rewrite bool_decide_eq_false_2 by done.
  destruct value as [|c0 r]; [done |].
  unfold strip_marker. rewrite has_marker_cons.
  fold (storage_path (if bool_decide (c0 = "-"%char)
                      then tail_str (String c0 r) else String c0 r)).
  by case_bool_decide.
Qed.

Lemma strip_join_prefix_storage_path (base : string) :
  startswith "game__" base = false →
  strip_join_prefix (storage_path base) = base.
Proof.
  intros Hb. unfold storage_path. case_bool_decide as Hg.
  { unfold game_fields in Hg. set_unfold in Hg.
    destruct_or!; subst; done. }
  case_bool_decide as Hr.
  { unfold rating_fields in Hr. set_unfold in Hr.
    destruct_or!; subst; done. }
  unfold strip_join_prefix. rewrite Hb.
  destruct (startswith "game__rating__" base) eqn:Hs; [| done].
  apply (startswith_app "game__" "rating__") in Hs. congruence.
Qed.

(** C8 (as amended): for a non-empty sort key the descending marker is
    kept, the seven game fields map to [game__<field>], the four rating
    fields to [game__rating__<field>], every other name is passed through;
    and when the unmarked name does not itself begin with [game__],
    taking the marker and the join prefix off the result gives the unmarked
    name back. *)
Theorem order_by_mapping_spec (value default : string) :
  value ≠ EmptyString →
  ∃ out, order_by_mapping value default = Ok out ∧
    has_marker out = has_marker value ∧
    (strip_marker value ∈ game_fields →
       strip_marker out = "game__" +:+ strip_marker value) ∧
    (strip_marker value ∈ rating_fields →
       strip_marker out = "game__rating__" +:+ strip_marker value) ∧
    (strip_marker value ∉ game_fields → strip_marker value ∉ rating_fields →
       out = value) ∧
    (startswith "game__" (strip_marker value) = false →
       strip_join_prefix (strip_marker out) = strip_marker value).
Proof.
  intros Hne. eexists. split; [by apply order_by_mapping_value |].
  assert (Hout : strip_marker
            (if has_marker value then "-" +:+ storage_path (strip_marker value)
             else storage_path value) = storage_path (strip_marker value)).
  { destruct (has_marker value) eqn:Hm; [done |].
    unfold strip_marker at 1. rewrite storage_path_no_marker by done.
    unfold strip_marker. by rewrite Hm. }
  rewrite Hout. split_and!.
  - destruct (has_marker value) eqn:Hm; [done |].
    by apply storage_path_no_marker.
  - intros Hg. unfold storage_path. by rewrite bool_decide_eq_true_2.
  - intros Hr. unfold storage_path.
    case_bool_decide as Hg; [| by rewrite bool_decide_eq_true_2].
    unfold rating_fields in Hr. unfold game_fields in Hg. set_unfold.
    destruct_or!; congruence.
  - intros Hg Hr. revert Hg Hr. unfold strip_marker.
    destruct (has_marker value) eqn:Hm; intros Hg Hr; unfold storage_path;
      rewrite !bool_decide_eq_false_2 by done; [| done].
    destruct value as [|c r]; [done |]. rewrite has_marker_cons in Hm.
    apply bool_decide_eq_true in Hm. by subst.
  - apply strip_join_prefix_storage_path.
Qed.

(** The mapping of [-critic_score] and its way back. *)
Lemma order_by_mapping_spec_witness :
  ∃ out, order_by_mapping "-critic_score" "id" = Ok out ∧
    has_marker out = true ∧
    strip_marker out = "game__rating__critic_score" ∧
    strip_join_prefix (strip_marker out) = "critic_score".
Proof.
  destruct (order_by_mapping_spec "-critic_score" "id") as
    (out & Hout & Hm & _ & Hr & _ & Hrt); [done |].
  exists out. split_and!; [done | done | |].
  - apply Hr. vm_compute. set_solver.
  - by apply Hrt.
Defined.

(** C8, the claim as stated fails on a name that already carries the join
    prefix: [game__name] and [name] are mapped to the same path, so no
    way of stripping the result recovers both. *)
Lemma order_by_mapping_round_trip_counterexample :
  order_by_mapping "game__name" "id" = Ok "game__name" ∧
  order_by_mapping "name" "id" = Ok "game__name" ∧
  strip_join_prefix (strip_marker "game__name") = "name" ∧
  "name" ≠ "game__name".
Proof. by vm_compute. Qed.


(** ** Search engine *)

Section SearchProofs.
Context {F : Type}.
Implicit Types (s : Sale F) (sales : list (Sale F)).

Lemma is_int_true (text : string) :
  is_int text = true ↔ ∃ n, Py.int text = Some n.
Proof. unfold is_int. by rewrite bool_decide_eq_true. Qed.

Lemma icontains_holds (v : pyval F) (text : string) :
  lookup_holds op_icontains v (PStr text) = true ↔
  ∃ t, v = PStr t ∧ occurs_ci text t.
Proof.
  unfold occurs_ci. destruct v as [|t|z|x]; simpl;
    try (split; [done | by intros (? & ? & _)]).
  rewrite contains_spec. split; [eauto | by intros (? & [= <-] & ?)].
Qed.

Lemma exact_holds (v : pyval F) (n : Z) :
  lookup_holds op_exact v (PInt n) = true ↔ v = PInt n.
Proof.
  destruct v as [|t|z|x]; simpl; try done.
  rewrite bool_decide_eq_true. split; congruence.
Qed.

(** C3: the search returns, in query order, exactly the records whose
    year equals [int(text)] when the text parses as an integer, and
    otherwise exactly the records in which the text occurs, letter case
    ignored, in one of name, platform, publisher, developer or genre. *)
Theorem search_by_text_spec sales (text : string) :
  ∃ selected : Sale F → bool,
    search_by_text sales text = Ok (List.filter selected sales) ∧
    ∀ s, selected s = true ↔
      match Py.int text with
      | Some n => year_of_release (game s) = PInt n
      | None =>
          ∃ (column : Sale F → pyval F) (t : string),
            column ∈ text_columns ∧ column s = PStr t ∧ occurs_ci text t
      end.
Proof.
  unfold search_by_text. destruct (is_int text) eqn:Hint.
  - apply is_int_true in Hint as [n Hn]. unfold int_of. rewrite Hn. simpl.
    eexists. split; [reflexivity |]. intros s. cbn [q_holds].
    apply exact_holds.
  - assert (Py.int text = None) as ->.
    { destruct (Py.int text) as [n|] eqn:Hn; [| done].
      assert (is_int text = true) by (apply is_int_true; eauto). congruence. }
    eexists. split; [reflexivity |]. intros s. cbn [q_holds].
    rewrite !orb_true_iff, !icontains_holds. split.
    + intros [[[[(t & ? & ?) | (t & ? & ?)] | (t & ? & ?)] | (t & ? & ?)]
              | (t & ? & ?)]; eexists _, t; (split; [| done]); unfold text_columns; set_solver.
    + intros (column & t & Hc & ? & ?). unfold text_columns in Hc.
      set_unfold in Hc.
      destruct_or!; subst; eauto 10.
Qed.

End SearchProofs.

(** The two searches of the fixture: by year and by publisher. *)
Example search_by_text_fixture :
  search_by_text fixture_sales "2006" =
    Ok [a_sale (a_game "Wii Sports" "Wii" "Nintendo" "Sports" 2006) 82530] ∧
  search_by_text fixture_sales "nintendo" =
    Ok [a_sale (a_game "Wii Sports" "Wii" "Nintendo" "Sports" 2006) 82530;
        a_sale (a_game "Mario Kart Wii" "Wii" "Nintendo" "Racing" 2008) 35520;
        a_sale (a_game "Tetris" "GB" "Nintendo" "Puzzle" 1989) 30260].
Proof. split; compute_done. Qed.


(** ** Filter engine *)


Lemma filter_filter {A} (f g : A → bool) (l : list A) :
  List.filter g (List.filter f l) = List.filter (λ x, f x && g x) l.
Proof.
  induction l as [|x l IH]; simpl; [done |].
  destruct (f x); simpl; [destruct (g x) |]; by rewrite IH.
Qed.

Lemma forallb_Permutation {A} (f : A → bool) (l k : list A) :
  l ≡ₚ k → forallb f l = forallb f k.
Proof.
  induction 1 as [|x l k _ IH|x y l|l k m _ IH1 _ IH2]; simpl.
  - done.
  - by rewrite IH.
  - by rewrite !andb_assoc, (andb_comm (f y)).
  - congruence.
Qed.

Lemma getitem_NoDup (params : dict) (k v : string) :
  NoDup (keys params) → (k, v) ∈ params → getitem params k = Ok v.
Proof.
  unfold keys. induction params as [|[k' v'] params IH]; simpl.
  - by intros _ ?%elem_of_nil.
  - intros [Hk' Hnd]%NoDup_cons [[= -> ->] | Hin]%elem_of_cons.
    + by rewrite bool_decide_eq_true_2.
    + rewrite bool_decide_eq_false_2; [by apply IH |].
      intros ->. apply Hk'. apply list_elem_of_fmap. by exists (k, v).
Qed.

Lemma for_params_app {F} (params : dict) (todo1 todo2 : list string)
    (sales : list (Sale F)) :
  for_params params (todo1 ++ todo2) sales =
  for_params params todo1 sales ≫= for_params params todo2.
Proof.
  revert sales. induction todo1 as [|k todo1 IH]; intros sales; simpl.
  - done.
  - destruct (apply_filter params sales k); simpl; [apply IH | done].
Qed.

Section FilterProofs.
Context {F : Type}.
Implicit Types (sales : list (Sale F)) (params todo : dict).

Lemma filters_map_unknown params (k : string) :
  k ∉ filter_names → filters_map (F:=F) params !! k = None.
Proof.
  unfold filter_names, filters_map. intros Hk. set_unfold in Hk. simpl.
  rewrite !lookup_insert_ne by naive_solver. done.
Qed.

Lemma apply_filter_unknown params sales (k : string) :
  k ∉ filter_names → apply_filter params sales k = Raise (KeyError k).
Proof. intros Hk. unfold apply_filter. by rewrite filters_map_unknown. Qed.

(** What one iteration does for a known name whose value is [v]. *)
Lemma apply_filter_known params sales (k v : string) :
  k ∈ filter_names → getitem params k = Ok v →
  apply_filter params sales k =
    if bool_decide (valid_param (k, v))
    then Ok (List.filter (param_holds (k, v)) sales)
    else Raise ValueError.
Proof.
  unfold filter_names. intros Hk Hv. set_unfold in Hk.
  destruct_or!; subst k; unfold apply_filter, filters_map; simpl;
    simplify_map_eq; rewrite Hv; simpl; [done | done | ..].
  all: unfold int_of; case_bool_decide as Hvalid.
  all: try (destruct Hvalid as [_ Hi]; simpl in Hi;
            destruct Hi as [n Hn]; [unfold int_filter_names; set_solver |];
            rewrite Hn; simpl; unfold param_holds; simpl; by rewrite Hn).
  all: destruct (Py.int v) as [n|] eqn:Hn; simpl; [| done];
       destruct Hvalid; split; simpl; [unfold filter_names; set_solver | eauto].
Qed.

Lemma for_params_valid params todo sales :
  Forall (λ kv, getitem params kv.1 = Ok kv.2) todo →
  Forall valid_param todo →
  for_params params todo.*1 sales =
    Ok (List.filter (λ s, forallb (λ kv, param_holds kv s) todo) sales).
Proof.
  intros Hget Hvalid. revert sales.
  induction Hget as [|[k v] todo Hkv _ IH]; intros sales; simpl.
  - clear. induction sales as [|s sales IH]; simpl; [done |].
    by injection IH as <-.
  - apply Forall_cons in Hvalid as [Hv Hvalid].
    rewrite (apply_filter_known _ _ k v), bool_decide_eq_true_2 by
      (done || apply Hv).
    simpl. by rewrite IH, filter_filter.
Qed.

Lemma for_params_invalid params todo sales :
  Forall (λ kv, kv.1 ∈ filter_names ∧ getitem params kv.1 = Ok kv.2) todo →
  ¬ Forall valid_param todo →
  for_params params todo.*1 sales = Raise ValueError.
Proof.
  intros Hget. revert sales.
  induction Hget as [|[k v] todo [Hk Hv] _ IH]; intros sales Hbad; simpl.
  - destruct Hbad. constructor.
  - rewrite (apply_filter_known _ _ k v) by done.
    case_bool_decide as Hkv; simpl; [| done].
    apply IH. contradict Hbad. by constructor.
Qed.

Lemma entries_getitem params todo more :
  NoDup (keys params) → params = todo ++ more →
  Forall (λ kv, getitem params kv.1 = Ok kv.2) todo.
Proof.
  intros Hnd ->. apply Forall_forall. intros [k v] Hin. simpl.
  apply getitem_NoDup; [done |]. set_solver.
Qed.

Lemma filter_by_params_valid sales params :
  NoDup (keys params) → Forall valid_param params →
  filter_by_params sales params =
    Ok (List.filter (λ s, forallb (λ kv, param_holds kv s) params) sales).
Proof.
  intros Hnd Hvalid. apply for_params_valid; [| done].
  apply (entries_getitem params params []); [done | by rewrite app_nil_r].
Qed.

(** C2: for parameters whose names are all known and whose integer-valued
    filters all parse, the result does not depend on the order in which the
    mapping lists its keys: any permutation of the entries selects the same
    records, and the call returns them. *)
Theorem filter_by_params_order_independent sales params params' :
  NoDup (keys params) → Forall valid_param params → params ≡ₚ params' →
  filter_by_params sales params = filter_by_params sales params' ∧
  ∃ found, filter_by_params sales params = Ok found.
Proof.
  intros Hnd Hvalid Hperm.
  rewrite !filter_by_params_valid; [| | by rewrite <- Hperm | done | done].
  - split; [| eauto]. f_equal. apply List.filter_ext. intros s.
    by apply forallb_Permutation.
  - unfold keys. by rewrite <- Hperm.
Qed.

(** C4 (as amended): when the mapping has a key outside the vocabulary the
    call returns no record set.  With known names before the first such
    key, it raises the [KeyError] of that key if all the entries before it
    are valid, and the [ValueError] of an integer filter that does not
    parse otherwise. *)
Theorem filter_by_params_unknown_key sales pre (k v : string) post :
  NoDup (keys (pre ++ (k, v) :: post)) →
  Forall (λ kv, kv.1 ∈ filter_names) pre →
  k ∉ filter_names →
  (Forall valid_param pre →
     filter_by_params sales (pre ++ (k, v) :: post) = Raise (KeyError k)) ∧
  (¬ Forall valid_param pre →
     filter_by_params sales (pre ++ (k, v) :: post) = Raise ValueError).
Proof.
  intros Hnd Hknown Hk.
  remember (pre ++ (k, v) :: post) as params eqn:Hp.
  assert (Hget : Forall (λ kv, getitem params kv.1 = Ok kv.2) pre)
    by by eapply entries_getitem.
  unfold filter_by_params. rewrite Hp at 2 4. unfold keys.
  rewrite fmap_app, for_params_app. split; intros Hpre.
  - rewrite for_params_valid by done. simpl.
    by rewrite apply_filter_unknown.
  - rewrite for_params_invalid; [done | | done].
    apply Forall_and. split; [done | by apply Hget].
Qed.

(** C5 (as amended): when an integer-valued filter has a value that [int]
    does not parse and every key before it in the mapping's key order is a
    known name, the call raises [ValueError]. *)
Theorem filter_by_params_unparseable sales pre (k v : string) post :
  NoDup (keys (pre ++ (k, v) :: post)) →
  Forall (λ kv, kv.1 ∈ filter_names) pre →
  k ∈ int_filter_names → Py.int v = None →
  filter_by_params sales (pre ++ (k, v) :: post) = Raise ValueError.
Proof.
  intros Hnd Hknown Hk Hv.
  remember (pre ++ (k, v) :: post) as params eqn:Hp.
  assert (Hp' : params = (pre ++ [(k, v)]) ++ post)
    by (by rewrite <- (assoc_L (++))).
  assert (Hget : Forall (λ kv, getitem params kv.1 = Ok kv.2)
                   (pre ++ [(k, v)])) by by eapply entries_getitem.
  unfold filter_by_params. rewrite Hp' at 2. unfold keys.
  rewrite fmap_app, for_params_app.
  rewrite for_params_invalid; [done | |].
  - apply Forall_and. split; [| by apply Hget].
    apply Forall_app. split; [done |]. apply Forall_singleton. simpl.
    unfold int_filter_names in Hk. unfold filter_names.
    repeat (apply elem_of_cons in Hk as [-> | Hk]; [by repeat constructor |]).
    by apply elem_of_nil in Hk.
  - rewrite Forall_app, Forall_singleton. intros [_ [_ Hi]].
    destruct (Hi Hk) as [n Hn]. simpl in Hn. congruence.
Qed.

End FilterProofs.

(** Two filters of the fixture, in both orders. *)
Lemma filter_by_params_order_independent_witness :
  filter_by_params fixture_sales [("genre", "Rac"); ("yor_gt", "2005")] =
  filter_by_params fixture_sales [("yor_gt", "2005"); ("genre", "Rac")] ∧
  ∃ found, filter_by_params fixture_sales
             [("genre", "Rac"); ("yor_gt", "2005")] = Ok found.
Proof.
  apply filter_by_params_order_independent.
  - compute_done.
  - compute_done.
  - apply Permutation_swap.
Defined.

(** An unknown key after a valid filter. *)
Lemma filter_by_params_unknown_key_witness :
  filter_by_params fixture_sales
    [("genre", "Rac"); ("platform", "Wii"); ("yor_lt", "abc")] =
  Raise (KeyError "platform").
Proof.
  apply (filter_by_params_unknown_key fixture_sales
           [("genre", "Rac")] "platform" "Wii" [("yor_lt", "abc")]);
    compute_done.
Defined.

(** C4, the claim as stated fails: with an unparseable integer filter
    listed before the unknown key [platform] the call raises [ValueError],
    not [KeyError]. *)
Lemma filter_by_params_unknown_key_counterexample :
  ("platform" ∉ filter_names) ∧
  filter_by_params fixture_sales [("yor_lt", "abc"); ("platform", "Wii")] =
    Raise ValueError.
Proof. split; compute_done. Qed.

(** An unparseable year after a valid filter. *)
Lemma filter_by_params_unparseable_witness :
  filter_by_params fixture_sales
    [("genre", "Rac"); ("yor_lt", "abc"); ("platform", "Wii")] =
  Raise ValueError.
Proof.
  apply (filter_by_params_unparseable fixture_sales
           [("genre", "Rac")] "yor_lt" "abc" [("platform", "Wii")]);
    compute_done.
Defined.

(** C5, the claim as stated fails: with the unknown key [platform] listed
    before the unparseable [yor_lt] the call raises [KeyError], not
    [ValueError]. *)
Lemma filter_by_params_unparseable_counterexample :
  Py.int "abc" = None ∧
  filter_by_params fixture_sales [("platform", "Wii"); ("yor_lt", "abc")] =
  Raise (KeyError "platform").
Proof. split; compute_done. Qed.


(** ** Aggregator *)

Lemma slice_to_nonneg {A} (n : Z) (xs : list A) :
  (0 ≤ n)%Z → slice_to n xs = take (Z.to_nat n) xs.
Proof. intros Hn. unfold slice_to. by rewrite bool_decide_eq_false_2 by lia. Qed.

Lemma slice_to_neg {A} (n : Z) (xs : list A) :
  (n < 0)%Z → slice_to n xs = take (length xs - Z.to_nat (- n)) xs.
Proof.
  intros Hn. unfold slice_to. rewrite bool_decide_eq_true_2 by done.
  f_equal. lia.
Qed.

Lemma slice_to_zip {A B} (n : Z) (l : list (A * B)) :
  zip (slice_to n l.*1) (slice_to n l.*2) = slice_to n l.
Proof.
  unfold slice_to. rewrite !length_fmap.
  case_bool_decide; by rewrite <- zip_with_take, zip_fst_snd.
Qed.

Section AggregatorProofs.
Context `{NumericOrder F}.
Implicit Types (df : DataFrame F) (k : pyval F) (groups : Series F).

#[local] Instance value_order_total asc : Total (value_order (F:=F) asc).
Proof. intros a b. unfold value_order. destruct asc; apply fle_total. Qed.

#[local] Instance value_order_trans asc : Transitive (value_order (F:=F) asc).
Proof.
  intros a b c. unfold value_order. destruct asc; eauto using fle_trans.
Qed.

Lemma numeric_cells_ok (vs : list (pyval F)) :
  (∀ s, PStr s ∉ vs) → numeric_cells vs = Ok (omap number_of vs).
Proof.
  induction vs as [|v vs IH]; intros Hvs; simpl; [done |].
  rewrite IH by set_solver.
  destruct v as [|s|z|x]; simpl; try done. destruct (Hvs s). left.
Qed.

Lemma group_values_rows df (by_ column : string) k :
  omap number_of ((λ row, cell row column) <$> group_rows df by_ k) =
  group_values df by_ column k.
Proof.
  unfold group_rows, group_values.
  induction (rows df) as [|row l IH]; [done |]. cbn [List.filter omap list_omap].
  case_bool_decide; [rewrite fmap_cons; cbn [omap list_omap] |];
    by rewrite IH.
Qed.

Lemma group_sum_ok df (by_ column : string) k :
  numeric_column df column →
  group_sum df by_ column k = Ok (fsum (group_values df by_ column k)).
Proof.
  intros Hnum. unfold group_sum. rewrite numeric_cells_ok.
  - simpl. by rewrite group_values_rows.
  - intros s (row & Hs & Hrow)%list_elem_of_fmap.
    apply (Hnum row s); [| done]. unfold group_rows in Hrow.
    apply list_elem_of_In, List.filter_In in Hrow as [Hrow _].
    by apply list_elem_of_In.
Qed.

Lemma sum_groups_ok df (by_ column : string) (ks : list (pyval F)) :
  numeric_column df column →
  sum_groups df by_ column ks =
    Ok ((λ k, (k, fsum (group_values df by_ column k))) <$> ks).
Proof.
  intros Hnum. induction ks as [|k ks IH]; simpl; [done |].
  by rewrite group_sum_ok, IH.
Qed.

Lemma group_keys_Permutation df (column : string) :
  group_keys df column ≡ₚ
  remove_dups (List.filter (λ v, bool_decide (v ≠ PNone))
                 ((λ row, cell row column) <$> rows df)).
Proof. apply merge_sort_Permutation. Qed.

Lemma NoDup_group_keys df (column : string) : NoDup (group_keys df column).
Proof. rewrite group_keys_Permutation. apply NoDup_remove_dups. Qed.

Lemma elem_of_group_keys df (column : string) k :
  k ∈ group_keys df column ↔
  k ≠ PNone ∧ ∃ row, row ∈ rows df ∧ cell row column = k.
Proof.
  rewrite group_keys_Permutation, elem_of_remove_dups, list_elem_of_In,
    List.filter_In, <- list_elem_of_In, bool_decide_eq_true, list_elem_of_fmap.
  split.
  - intros [(row & -> & Hrow) Hne]. eauto.
  - intros [Hne (row & Hrow & <-)]. eauto.
Qed.

(** The series of the aggregator before rounding: one entry per distinct
    key, each with the sum of its group, in the order of [sort_values]. *)
Lemma get_top_fields_series_groups df (by_ column : string) (decimals : Z)
    (ascending : bool) :
  by_ ∈ columns df → column ∈ columns df → numeric_column df column →
  ∃ groups,
    get_top_fields_series df by_ column decimals ascending =
      Ok (round decimals groups) ∧
    NoDup groups.*1 ∧
    (∀ k, k ∈ groups.*1 ↔
          k ≠ PNone ∧ ∃ row, row ∈ rows df ∧ cell row by_ = k) ∧
    (∀ k x, (k, x) ∈ groups → x = fsum (group_values df by_ column k)) ∧
    StronglySorted (value_order ascending) groups.
Proof.
  intros Hby Hcol Hnum.
  set (sums := (λ k, (k, fsum (group_values df by_ column k)))
                 <$> group_keys df by_).
  assert (Hkeys : sums.*1 = group_keys df by_).
  { unfold sums. rewrite <- list_fmap_compose. apply list_fmap_id. }
  exists (sort_values ascending sums). split_and!.
  - unfold get_top_fields_series, groupby_sum.
    rewrite !bool_decide_eq_true_2 by done. simpl.
    by rewrite sum_groups_ok.
  - unfold sort_values. rewrite merge_sort_Permutation, Hkeys.
    apply NoDup_group_keys.
  - intros k. unfold sort_values. rewrite merge_sort_Permutation, Hkeys.
    apply elem_of_group_keys.
  - intros k x. unfold sort_values. rewrite merge_sort_Permutation.
    unfold sums. by intros (k' & [= -> ->] & _)%list_elem_of_fmap.
  - apply StronglySorted_merge_sort; apply _.
Qed.

Lemma get_top_fields_list_round groups (n : Z) (field : string) :
  get_top_fields_list (round 2 groups) n field =
  top_entry field <$> slice_to n groups.
Proof.
  unfold get_top_fields_list, index, values. rewrite slice_to_zip.
  unfold slice_to, round. rewrite length_fmap.
  case_bool_decide; rewrite <- fmap_take, <- list_fmap_compose;
    apply list_fmap_ext; by intros ? [??].
Qed.

(** C1 (as amended): when the frame has the mapped column and the numeric
    sale column, for every [n >= 0] the answer lists the first [n] entries of the
    groups: one group per distinct value of the mapped field, each with the
    sum of the sale column over the group's records ([NaN] left out),
    sorted by sum in descending order; every entry is the mapping
    [{field: key, 'count': sum rounded to 2 places}]. *)
Theorem get_top_n_fields_for_sale_type_spec df (field sale_type : string)
    (n : Z) :
  map_field_to_db_field field ∈ columns df →
  sale_type ∈ columns df → numeric_column df sale_type → (0 ≤ n)%Z →
  ∃ groups : list (pyval F * F),
    NoDup groups.*1 ∧
    (∀ k, k ∈ groups.*1 ↔
          k ≠ PNone ∧
          ∃ row, row ∈ rows df ∧ cell row (map_field_to_db_field field) = k) ∧
    (∀ k x, (k, x) ∈ groups →
            x = fsum (group_values df (map_field_to_db_field field)
                        sale_type k)) ∧
    StronglySorted (λ a b, fle b.2 a.2 = true) groups ∧
    get_top_n_fields_for_sale_type df field sale_type n =
      Ok ((λ kx, <["count" := PFloat (fround 2 kx.2)]> {[ field := kx.1 ]})
            <$> take (Z.to_nat n) groups).
Proof.
  intros Hby Hcol Hnum Hn.
  destruct (get_top_fields_series_groups df _ _ 2 false Hby Hcol Hnum)
    as (groups & Hseries & Hnd & Hkeys & Hsums & Hsorted).
  exists groups. split_and!; try done.
  unfold get_top_n_fields_for_sale_type. rewrite Hseries. simpl.
  by rewrite get_top_fields_list_round, slice_to_nonneg.
Qed.

(** C6 (as amended): when the frame has the mapped column and the numeric
    sale column, the answers for all [n] are slices of one list with an
    entry per distinct group: [n >= 0] gives its first [n] entries, so every
    [n] at least its length gives the whole list and [n = 0] the empty
    list; a negative [n] raises nothing and gives the list without its
    last [-n] entries. *)
Theorem get_top_n_fields_for_sale_type_bounds df (field sale_type : string) :
  map_field_to_db_field field ∈ columns df →
  sale_type ∈ columns df → numeric_column df sale_type →
  ∃ all : list (gmap string (pyval F)),
    length all = length (group_keys df (map_field_to_db_field field)) ∧
    (∀ n, (0 ≤ n)%Z →
          get_top_n_fields_for_sale_type df field sale_type n =
            Ok (take (Z.to_nat n) all)) ∧
    (∀ n, (Z.of_nat (length all) ≤ n)%Z →
          get_top_n_fields_for_sale_type df field sale_type n = Ok all) ∧
    get_top_n_fields_for_sale_type df field sale_type 0 = Ok [] ∧
    (∀ n, (n < 0)%Z →
          get_top_n_fields_for_sale_type df field sale_type n =
            Ok (take (length all - Z.to_nat (- n)) all)).
Proof.
  intros Hby Hcol Hnum.
  destruct (get_top_fields_series_groups df _ _ 2 false Hby Hcol Hnum)
    as (groups & Hseries & Hnd & Hkeys & _).
  assert (Hget : ∀ n, get_top_n_fields_for_sale_type df field sale_type n =
                      Ok (top_entry field <$> slice_to n groups)).
  { intros n. unfold get_top_n_fields_for_sale_type. rewrite Hseries. simpl.
    by rewrite get_top_fields_list_round. }
  exists (top_entry field <$> groups). rewrite length_fmap. split_and!.
  - rewrite <- (length_fmap fst groups). apply Permutation_length.
    apply NoDup_Permutation; [done | apply NoDup_group_keys |].
    intros k. by rewrite Hkeys, elem_of_group_keys.
  - intros n Hn. by rewrite Hget, slice_to_nonneg, fmap_take.
  - intros n Hn. rewrite Hget, slice_to_nonneg by lia.
    by rewrite take_ge by lia.
  - by rewrite Hget.
  - intros n Hn. by rewrite Hget, slice_to_neg, fmap_take.
Qed.

End AggregatorProofs.

#[local] Instance decimal_order : NumericOrder decimal.
Proof.
  split; simpl; intros *; rewrite ?bool_decide_eq_true; lia.
Qed.

(** The sales column of the fixture holds numbers and [NaN] only. *)
Lemma fixture_frame_numeric : numeric_column fixture_frame "global_sales".
Proof.
  intros row s Hrow. unfold fixture_frame in Hrow. simpl in Hrow.
  repeat (apply elem_of_cons in Hrow as [-> | Hrow]; [by vm_compute |]).
  by apply elem_of_nil in Hrow.
Qed.

(** The three genres of the fixture with their summed global sales. *)
Example get_top_n_fields_for_sale_type_fixture :
  get_top_n_fields_for_sale_type fixture_frame "genre" "global_sales" 3 =
  Ok [<["count" := PFloat (Decimal 115300)]> {[ "genre" := PStr "Sports" ]};
      <["count" := PFloat (Decimal 36530)]> {[ "genre" := PStr "Racing" ]};
      <["count" := PFloat (Decimal 30260)]> {[ "genre" := PStr "Puzzle" ]}].
Proof. compute_done. Qed.

(** The top two genres of the fixture. *)
Lemma get_top_n_fields_for_sale_type_spec_witness :
  ∃ groups : list (pyval decimal * decimal),
    NoDup groups.*1 ∧
    (∀ k, k ∈ groups.*1 ↔
          k ≠ PNone ∧
          ∃ row, row ∈ rows fixture_frame ∧ cell row "game__genre" = k) ∧
    (∀ k x, (k, x) ∈ groups →
            x = fsum (group_values fixture_frame "game__genre"
                        "global_sales" k)) ∧
    StronglySorted (λ a b, fle b.2 a.2 = true) groups ∧
    get_top_n_fields_for_sale_type fixture_frame "genre" "global_sales" 2 =
      Ok ((λ kx, <["count" := PFloat (fround 2 kx.2)]> {[ "genre" := kx.1 ]})
            <$> take 2 groups).
Proof.
  apply (get_top_n_fields_for_sale_type_spec fixture_frame "genre"
           "global_sales" 2).
  - compute_done.
  - compute_done.
  - apply fixture_frame_numeric.
  - lia.
Defined.

(** C1, the claim as stated fails for a frame without the mapped column:
    the fixture has no column [game__user_score] (the stored path of a
    rating field is [game__rating__user_score]), and the call raises
    [KeyError] where the claim has it return the groups. *)
Lemma get_top_n_fields_for_sale_type_missing_field_counterexample :
  "global_sales" ∈ columns fixture_frame ∧
  get_top_n_fields_for_sale_type fixture_frame "user_score" "global_sales" 2 =
  Raise (KeyError "game__user_score").
Proof. split; compute_done. Qed.

(** The slices of the fixture's three groups. *)
Lemma get_top_n_fields_for_sale_type_bounds_witness :
  ∃ all : list (gmap string (pyval decimal)),
    length all = length (group_keys fixture_frame "game__genre") ∧
    (∀ n, (0 ≤ n)%Z →
          get_top_n_fields_for_sale_type fixture_frame "genre"
            "global_sales" n = Ok (take (Z.to_nat n) all)) ∧
    (∀ n, (Z.of_nat (length all) ≤ n)%Z →
          get_top_n_fields_for_sale_type fixture_frame "genre"
            "global_sales" n = Ok all) ∧
    get_top_n_fields_for_sale_type fixture_frame "genre" "global_sales" 0 =
      Ok [] ∧
    (∀ n, (n < 0)%Z →
          get_top_n_fields_for_sale_type fixture_frame "genre"
            "global_sales" n = Ok (take (length all - Z.to_nat (- n)) all)).
Proof.
  apply (get_top_n_fields_for_sale_type_bounds fixture_frame "genre"
           "global_sales").
  - compute_done.
  - compute_done.
  - apply fixture_frame_numeric.
Defined.

(** C6, the claim as stated fails for a negative [n]: on the fixture's
    three groups [n = -1] raises nothing and answers the first two. *)
Lemma get_top_n_fields_for_sale_type_negative_counterexample :
  get_top_n_fields_for_sale_type fixture_frame "genre" "global_sales" (-1) =
  Ok [<["count" := PFloat (Decimal 115300)]> {[ "genre" := PStr "Sports" ]};
      <["count" := PFloat (Decimal 36530)]> {[ "genre" := PStr "Racing" ]}].
Proof. compute_done. Qed.


(** ** Managers *)

Section StoreProofs.
Context {F : Type}.
Variable slugify : pyval F → string.
Variable write_error : DB F → row F → option exn.
Implicit Types (db : DB F) (kwargs : gmap string (pyval F)).

Lemma pk_for_new {A} (table : gmap nat A) :
  table !! pk_for None table = None.
Proof. unfold pk_for. simpl. apply not_elem_of_dom, is_fresh. Qed.

(** What [Rating.save] does with an instance that has no primary key. *)
Lemma Rating_save_new (r : Rating F) db :
  rating_pk r = None →
  match Rating_save write_error r db with
  | (Ok r', db') =>
      ∃ pk, rating_pk r' = Some pk ∧
        ratings db !! pk = None ∧
        ratings db' = <[pk := r']> (ratings db) ∧ games db' = games db ∧
        Forall (λ ka, ka.2 r' = ka.2 r) rating_attributes
  | (Raise _, db') => db' = db
  end.
Proof.
  intros Hpk. unfold Rating_save.
  destruct (write_error db (RatingRow r)); [done |]. rewrite Hpk.
  eexists. split_and!; try done; [apply pk_for_new |].
  unfold rating_attributes. by repeat constructor.
Qed.

(** What [Game.save] keeps of the instance and of the ratings table. *)
Lemma Game_save_stored (g g' : Game F) db db' :
  Game_save slugify write_error g db = (Ok g', db') →
  rating g' = rating g ∧ ratings db' = ratings db ∧
  ∃ pk, game_pk g' = Some pk ∧ games db' !! pk = Some g'.
Proof.
  unfold Game_save. simpl. destruct (unsaved_rating (rating g)); [done |].
  destruct (write_error db _); [done |]. intros [= <- <-]. simpl.
  split_and!; try done. eexists. split; [done |]. apply lookup_insert_eq.
Qed.

Lemma Game_save_refused (g : Game F) db db' e :
  Game_save slugify write_error g db = (Raise e, db') → db' = db.
Proof.
  unfold Game_save. simpl. destruct (unsaved_rating (rating g)).
  - by intros [= _ <-].
  - destruct (write_error db _); [by intros [= _ <-] | done].
Qed.

Lemma GameManager_create_outcome kwargs db :
  match GameManager_create slugify write_error kwargs db with
  | (Ok g, db') =>
      has_new_rating kwargs db db' g ∧
      ∃ pk, game_pk g = Some pk ∧ games db' !! pk = Some g
  | (Raise _, db') =>
      games db' = games db ∧
      (ratings db' = ratings db ∨
       ∃ pk r, ratings db !! pk = None ∧ ratings db' = <[pk := r]> (ratings db))
  end.
Proof.
  unfold GameManager_create.
  set (r0 := {| rating_pk := None;
                critic_score := get kwargs "critic_score" PNone |}).
  pose proof (Rating_save_new r0 db eq_refl) as Hr.
  destruct (Rating_save write_error r0 db) as [[r|e] db1]; [| subst; auto].
  destruct Hr as (pk & Hpk & Hnew & Hratings & Hgames & Hattr).
  match goal with |- context [Game_save _ _ ?g0 db1] => set (g := g0) end.
  destruct (Game_save slugify write_error g db1) as [[g'|e] db'] eqn:Hsave.
  - apply Game_save_stored in Hsave as (Hrating & Hratings' & Hstored).
    split; [| done]. exists r, pk. split_and!; try done.
    + by rewrite Hratings', Hratings, lookup_insert_eq.
    + revert Hattr. unfold rating_attributes, r0, get. simpl.
      rewrite !Forall_cons. simpl. intros (? & ? & ? & ? & ?).
      by split_and!.
  - apply Game_save_refused in Hsave as ->. split; [done |].
    right. by exists pk, r.
Qed.

Lemma Sale_save_stored (s s' : Sale F) db db' :
  Sale_save write_error s db = (Ok s', db') →
  game s' = game s ∧ ratings db' = ratings db.
Proof.
  unfold Sale_save. destruct (bool_decide _); [done |].
  destruct (write_error db _); [done |]. by intros [= <- <-].
Qed.

(** C10: a game that [GameManager.create] returns refers to a rating that
    is a new row of the ratings table, whose four attributes are the
    keyword values given and [None] for a keyword not supplied; the same
    holds for the game of a sale that [SaleManager.create] returns; and
    when the call raises after the rating was saved, no game was written. *)
Theorem create_attaches_new_rating kwargs db :
  (∀ g db', GameManager_create slugify write_error kwargs db = (Ok g, db') →
     has_new_rating kwargs db db' g ∧
     ∃ pk, game_pk g = Some pk ∧ games db' !! pk = Some g) ∧
  (∀ s db', SaleManager_create slugify write_error kwargs db = (Ok s, db') →
     has_new_rating kwargs db db' (game s)) ∧
  (∀ e db', GameManager_create slugify write_error kwargs db = (Raise e, db') →
     games db' = games db ∧
     (ratings db' = ratings db ∨
      ∃ pk r, ratings db !! pk = None ∧ ratings db' = <[pk := r]> (ratings db))).
Proof.
  split_and!.
  - intros g db' Hcreate.
    pose proof (GameManager_create_outcome kwargs db) as Hout.
    by rewrite Hcreate in Hout.
  - intros s db'. unfold SaleManager_create, pop. simpl.
    match goal with
    | |- context [GameManager_create _ _ ?kw db] => set (kwargs' := kw)
    end.
    pose proof (GameManager_create_outcome kwargs' db) as Hout.
    destruct (GameManager_create slugify write_error kwargs' db)
      as [[g|e] db1]; [| done].
    destruct Hout as [(r & pk & Hr & Hpk & Hnew & Hsaved & Hattr) _].
    intros [Hgame Hratings]%Sale_save_stored. simpl in Hgame.
    exists r, pk. rewrite Hgame, Hratings. split_and!; try done.
    revert Hattr. unfold rating_attributes, kwargs'. simpl.
    rewrite !Forall_cons. simpl. rewrite !lookup_delete_ne by done.
    intros (? & ? & ? & ? & _). by split_and!.
  - intros e db' Hcreate.
    pose proof (GameManager_create_outcome kwargs db) as Hout.
    by rewrite Hcreate in Hout.
Qed.

End StoreProofs.

(** One sale created in the empty store. *)
Lemma create_attaches_new_rating_witness :
  ∃ s db',
    SaleManager_create slugify_value declared_constraints fixture_kwargs
      empty_db = (Ok s, db') ∧
    has_new_rating fixture_kwargs empty_db db' (game s).
Proof.
  destruct (SaleManager_create slugify_value declared_constraints
              fixture_kwargs empty_db) as [[s|e] db'] eqn:Hcreate;
    [| by vm_compute in Hcreate].
  exists s, db'. split; [done |].
  by apply (create_attaches_new_rating slugify_value declared_constraints
              fixture_kwargs empty_db).
Defined.


(** * Further properties *)

(** ** Field mapper: defaults and repeated mapping *)

(** X1: an empty sort key stands for the default; the call raises only when
    the key and the default are both empty, and then it is [IndexError]. *)
Theorem order_by_mapping_default (value default : string) :
  (order_by_mapping value default = Raise IndexError ↔
     value = EmptyString ∧ default = EmptyString) ∧
  (∀ e, order_by_mapping value default = Raise e → e = IndexError) ∧
  order_by_mapping EmptyString default = order_by_mapping default default.
Proof.
  split_and!.
  - destruct value as [|c v]; [destruct default as [|d w] |]; simpl.
    + by split.
    + change (order_by_mapping EmptyString (String d w))
        with (order_by_mapping (String d w) (String d w)).
      rewrite order_by_mapping_value by done. split; [done | by intros [_ ?]].
    + rewrite order_by_mapping_value by done. split; [done | by intros [? _]].
  - intros e. destruct value as [|c v]; [destruct default as [|d w] |].
    + by intros [= <-].
    + change (order_by_mapping EmptyString (String d w))
        with (order_by_mapping (String d w) (String d w)).
      by rewrite order_by_mapping_value.
    + by rewrite order_by_mapping_value.
  - by destruct default.
Qed.

Lemma storage_path_idemp (base : string) :
  storage_path (storage_path base) = storage_path base.
Proof.
  unfold storage_path at 2. case_bool_decide as Hg.
  { unfold game_fields in Hg.
    repeat (apply elem_of_cons in Hg as [-> | Hg]; [done |]).
    by apply elem_of_nil in Hg. }
  case_bool_decide as Hr.
  { unfold rating_fields in Hr.
    repeat (apply elem_of_cons in Hr as [-> | Hr]; [done |]).
    by apply elem_of_nil in Hr. }
  unfold storage_path. by rewrite !bool_decide_eq_false_2.
Qed.

Lemma storage_path_nonempty (base : string) :
  base ≠ EmptyString → storage_path base ≠ EmptyString.
Proof. intros Hb. unfold storage_path. by repeat case_bool_decide. Qed.

Lemma strip_marker_marked (s : string) : strip_marker ("-" +:+ s) = s.
Proof. done. Qed.

(** X2: a mapped sort key is mapped to itself: mapping twice gives what
    mapping once gives. *)
Theorem order_by_mapping_idempotent (value default default' out : string) :
  order_by_mapping value default = Ok out →
  order_by_mapping out default' = Ok out.
Proof.
  assert (Hne : ∀ v d, v ≠ EmptyString → order_by_mapping v d = Ok out →
                       order_by_mapping out default' = Ok out).
  { intros v d Hv. rewrite order_by_mapping_value by done.
    destruct (has_marker v) eqn:Hm; intros [= <-].
    - rewrite order_by_mapping_value by done.
      change (has_marker ("-" +:+ storage_path (strip_marker v))) with true.
      cbv iota. by rewrite strip_marker_marked, storage_path_idemp.
    - rewrite order_by_mapping_value by by apply storage_path_nonempty.
      rewrite storage_path_no_marker by done.
      by rewrite storage_path_idemp. }
  destruct value as [|c v].
  - destruct default as [|d w]; [by intros [=] |]. intros Hout.
    by apply (Hne (String d w) (String d w)).
  - by apply Hne.
Qed.

(** The key [-name] and its path. *)
Lemma order_by_mapping_idempotent_witness :
  order_by_mapping "-game__name" "id" = Ok "-game__name".
Proof.
  apply (order_by_mapping_idempotent "-name" "id" "id"). by vm_compute.
Defined.


(** ** Filter engine: shape, meaning and composition *)

Lemma filter_sublist {A} (f : A → bool) (l : list A) :
  sublist (List.filter f l) l.
Proof.
  induction l as [|x l IH]; simpl; [done |].
  destruct (f x); by constructor.
Qed.

Lemma getitem_app_l (p1 p2 : dict) (k : string) :
  k ∈ keys p1 → getitem (p1 ++ p2) k = getitem p1 k.
Proof.
  unfold keys. induction p1 as [|[k' v'] p1 IH]; simpl.
  - by intros ?%elem_of_nil.
  - intros Hk. case_bool_decide as Heq; [done |].
    apply IH. apply elem_of_cons in Hk as [-> | Hk]; done.
Qed.

Lemma getitem_app_r (p1 p2 : dict) (k : string) :
  k ∉ keys p1 → getitem (p1 ++ p2) k = getitem p2 k.
Proof.
  unfold keys. induction p1 as [|[k' v'] p1 IH]; simpl; [done |].
  intros Hk. apply not_elem_of_cons in Hk as [Hne Hk].
  rewrite bool_decide_eq_false_2 by done. by apply IH.
Qed.

Section FilterShape.
Context {F : Type}.
Implicit Types (sales : list (Sale F)) (params todo : dict).

Lemma apply_filter_getitem_raise params sales (k : string) (e : exn) :
  k ∈ filter_names → getitem params k = Raise e →
  apply_filter params sales k = Raise e.
Proof.
  unfold filter_names. intros Hk He.
  repeat (apply elem_of_cons in Hk as [-> | Hk];
          [unfold apply_filter, filters_map; simpl; simplify_map_eq;
           by rewrite He |]).
  by apply elem_of_nil in Hk.
Qed.

(** One iteration either raises or filters, and which of the two does not
    depend on the records. *)
Lemma apply_filter_shape params (k : string) :
  ∃ plan : result (Sale F → bool), ∀ sales,
    apply_filter params sales k =
      match plan with
      | Ok keep => Ok (List.filter keep sales)
      | Raise e => Raise e
      end.
Proof.
  destruct (decide (k ∈ filter_names)) as [Hk|Hk].
  - destruct (getitem params k) as [v|e] eqn:Hv.
    + destruct (decide (valid_param (k, v))) as [Hvalid|Hvalid].
      * exists (Ok (param_holds (k, v))). intros sales.
        by rewrite (apply_filter_known _ _ k v), bool_decide_eq_true_2.
      * exists (Raise ValueError). intros sales.
        by rewrite (apply_filter_known _ _ k v), bool_decide_eq_false_2.
    + exists (Raise e). intros sales. by apply apply_filter_getitem_raise.
  - exists (Raise (KeyError k)). intros sales. by apply apply_filter_unknown.
Qed.

Lemma for_params_shape params (todo : list string) :
  ∃ plan : result (Sale F → bool), ∀ sales,
    for_params params todo sales =
      match plan with
      | Ok keep => Ok (List.filter keep sales)
      | Raise e => Raise e
      end.
Proof.
  induction todo as [|k todo [plan2 IH]]; simpl.
  - exists (Ok (λ _, true)). intros sales. f_equal.
    induction sales as [|s sales IHs]; simpl; congruence.
  - destruct (apply_filter_shape params k) as [[keep1|e1] H1].
    + destruct plan2 as [keep2|e2].
      * exists (Ok (λ s, keep1 s && keep2 s)). intros sales.
        rewrite H1. simpl. by rewrite IH, filter_filter.
      * exists (Raise e2). intros sales. rewrite H1. simpl. by rewrite IH.
    + exists (Raise e1). intros sales. by rewrite H1.
Qed.

(** X3: [filter_by_params] selects record by record.  The parameters alone
    decide whether it raises and what; when it returns, the records it
    returns are the records of the collection that satisfy a test of the
    single record. *)
Theorem filter_by_params_is_filter params :
  ∃ plan : result (Sale F → bool), ∀ sales,
    match plan with
    | Ok keep =>
        ∃ found, filter_by_params sales params = Ok found ∧
                 ∀ s, s ∈ found ↔ s ∈ sales ∧ keep s = true
    | Raise e => filter_by_params sales params = Raise e
    end.
Proof.
  destruct (for_params_shape params (keys params)) as [plan Hplan].
  exists plan. intros sales. specialize (Hplan sales).
  destruct plan as [keep|e]; [| exact Hplan].
  exists (List.filter keep sales). split; [exact Hplan |]. intros s.
  by rewrite list_elem_of_In, List.filter_In, <- list_elem_of_In.
Qed.

Lemma search_by_text_shape (text : string) :
  ∃ keep : Sale F → bool, ∀ sales,
    search_by_text sales text = Ok (List.filter keep sales).
Proof.
  unfold search_by_text. destruct (is_int text) eqn:Hint.
  - apply is_int_true in Hint as [n Hn]. unfold int_of. rewrite Hn. simpl.
    by eexists.
  - by eexists.
Qed.

(** X4: searching and filtering commute: either order of the two calls
    gives the same records, or the same exception. *)
Theorem search_filter_commute sales params (text : string) :
  search_by_text sales text ≫= (λ found, filter_by_params found params) =
  filter_by_params sales params ≫= (λ found, search_by_text found text).
Proof.
  destruct (search_by_text_shape text) as [q Hq].
  destruct (for_params_shape params (keys params)) as [plan Hplan].
  unfold filter_by_params. rewrite Hq. simpl. rewrite !Hplan.
  destruct plan as [keep|e]; simpl; [| done].
  rewrite Hq, !filter_filter. f_equal. apply List.filter_ext.
  intros s. apply andb_comm.
Qed.

Lemma apply_filter_ext params params' sales (k : string) :
  getitem params k = getitem params' k →
  apply_filter params sales k = apply_filter params' sales k.
Proof.
  intros Hget. destruct (decide (k ∈ filter_names)) as [Hk|Hk].
  - destruct (getitem params k) as [v|e] eqn:Hv.
    + by rewrite !(apply_filter_known _ _ k v).
    + by rewrite !(apply_filter_getitem_raise _ _ k e).
  - by rewrite !apply_filter_unknown.
Qed.

Lemma for_params_ext params params' (todo : list string) sales :
  (∀ k, k ∈ todo → getitem params k = getitem params' k) →
  for_params params todo sales = for_params params' todo sales.
Proof.
  revert sales. induction todo as [|k todo IH]; intros sales Hget; simpl.
  - done.
  - rewrite (apply_filter_ext params params') by (apply Hget; left).
    destruct (apply_filter params' sales k); simpl; [| done].
    apply IH. intros k' Hk'. apply Hget. by right.
Qed.

(** X5: filtering by a mapping is filtering by its first entries and then
    by the rest. *)
Theorem filter_by_params_app sales (params1 params2 : dict) :
  NoDup (keys (params1 ++ params2)) →
  filter_by_params sales (params1 ++ params2) =
  filter_by_params sales params1 ≫=
    (λ found, filter_by_params found params2).
Proof.
  unfold keys. rewrite fmap_app. intros [Hnd1 [Hdisj Hnd2]]%NoDup_app.
  unfold filter_by_params, keys. rewrite fmap_app, for_params_app.
  rewrite (for_params_ext (params1 ++ params2) params1).
  - destruct (for_params params1 params1.*1 sales) as [found|e]; simpl;
      [| done].
    apply for_params_ext. intros k Hk. apply getitem_app_r.
    intros Hk1. by apply (Hdisj k).
  - intros k Hk. by apply getitem_app_l.
Qed.

End FilterShape.

(** Two filters of the fixture, at once and one after the other. *)
Lemma filter_by_params_app_witness :
  filter_by_params fixture_sales [("genre", "Rac"); ("yor_gt", "2005")] =
  filter_by_params fixture_sales [("genre", "Rac")] ≫=
    (λ found, filter_by_params found [("yor_gt", "2005")]).
Proof.
  apply (filter_by_params_app fixture_sales
           [("genre", "Rac")] [("yor_gt", "2005")]).
  compute_done.
Defined.


Section FilterMeaning.
Context {F : Type}.
Implicit Types (s : Sale F) (sales : list (Sale F)) (params : dict).

Lemma contains_holds (x : pyval F) (v : string) :
  lookup_holds op_contains x (PStr v) = true ↔
  ∃ g, x = PStr g ∧ ∃ a b, g = a +:+ v +:+ b.
Proof.
  destruct x as [|g|z|y]; simpl; try (split; [done | by intros (? & ? & _)]).
  rewrite contains_spec. split; [eauto | by intros (? & [= <-] & ?)].
Qed.

Lemma genre_holds (v : string) s :
  param_holds ("genre", v) s = true ↔
  ∃ g, genre (game s) = PStr g ∧ ∃ a b, g = a +:+ v +:+ b.
Proof. apply contains_holds. Qed.

Lemma esrb_rating_holds (v : string) s :
  param_holds ("esrb_rating", v) s = true ↔
  ∃ r, esrb_rating (game s) = PStr r ∧ ∃ a b, r = a +:+ v +:+ b.
Proof. apply contains_holds. Qed.

Lemma yor_lt_holds (v : string) s :
  param_holds ("yor_lt", v) s = true ↔
  ∃ y n, year_of_release (game s) = PInt y ∧ Py.int v = Some n ∧ (y < n)%Z.
Proof.
  unfold param_holds, game__year_of_release. simpl.
  destruct (Py.int v) as [n|]; [| split; [done | by intros (? & ? & _ & ? & _)]].
  destruct (year_of_release (game s)) as [|t|y|x]; simpl;
    try (split; [done | by intros (? & ? & ? & _)]).
  rewrite bool_decide_eq_true. split; [eauto |].
  by intros (? & ? & [= <-] & [= <-] & ?).
Qed.

Lemma yor_gt_holds (v : string) s :
  param_holds ("yor_gt", v) s = true ↔
  ∃ y n, year_of_release (game s) = PInt y ∧ Py.int v = Some n ∧ (y > n)%Z.
Proof.
  unfold param_holds, game__year_of_release. simpl.
  destruct (Py.int v) as [n|]; [| split; [done | by intros (? & ? & _ & ? & _)]].
  destruct (year_of_release (game s)) as [|t|y|x]; simpl;
    try (split; [done | by intros (? & ? & ? & _)]).
  rewrite bool_decide_eq_true. split; [eauto |].
  by intros (? & ? & [= <-] & [= <-] & ?).
Qed.

Lemma year_of_release_holds (v : string) s :
  param_holds ("year_of_release", v) s = true ↔
  ∃ n, year_of_release (game s) = PInt n ∧ Py.int v = Some n.
Proof.
  unfold param_holds, game__year_of_release. simpl.
  destruct (Py.int v) as [n|]; [| split; [done | by intros (? & _ & ?)]].
  destruct (year_of_release (game s)) as [|t|y|x]; simpl;
    try (split; [done | by intros (? & ? & _)]).
  rewrite bool_decide_eq_true. split; [intros ->; eauto |].
  by intros (? & [= <-] & [= <-]).
Qed.

(** X6: what the five filters mean.  With known names and parseable
    integers the call returns exactly the records that pass every entry:
    [genre] and [esrb_rating] ask for the value as a substring (letter case
    kept) of a text column, [yor_lt] and [yor_gt] for a year strictly below
    or above the integer, [year_of_release] for that year; a record whose
    column is [NULL] passes none of its filters. *)
Theorem filter_by_params_meaning sales params :
  NoDup (keys params) → Forall valid_param params →
  ∃ found, filter_by_params sales params = Ok found ∧
    ∀ s, s ∈ found ↔ s ∈ sales ∧
      (∀ v, ("genre", v) ∈ params →
         ∃ g, genre (game s) = PStr g ∧ ∃ a b, g = a +:+ v +:+ b) ∧
      (∀ v, ("esrb_rating", v) ∈ params →
         ∃ r, esrb_rating (game s) = PStr r ∧ ∃ a b, r = a +:+ v +:+ b) ∧
      (∀ v, ("yor_lt", v) ∈ params →
         ∃ y n, year_of_release (game s) = PInt y ∧ Py.int v = Some n ∧
                (y < n)%Z) ∧
      (∀ v, ("yor_gt", v) ∈ params →
         ∃ y n, year_of_release (game s) = PInt y ∧ Py.int v = Some n ∧
                (y > n)%Z) ∧
      (∀ v, ("year_of_release", v) ∈ params →
         ∃ n, year_of_release (game s) = PInt n ∧ Py.int v = Some n).
Proof.
  intros Hnd Hvalid. eexists. split; [by apply filter_by_params_valid |].
  intros s.
  rewrite list_elem_of_In, List.filter_In, <- list_elem_of_In, forallb_forall.
  split; intros [Hs Hall]; (split; [done |]).
  - split_and!; intros v Hv%list_elem_of_In%Hall.
    + by apply genre_holds.
    + by apply esrb_rating_holds.
    + by apply yor_lt_holds.
    + by apply yor_gt_holds.
    + by apply year_of_release_holds.
  - destruct Hall as (Hg & He & Hlt & Hgt & Hy).
    intros [k v] Hkv%list_elem_of_In.
    rewrite Forall_forall in Hvalid. destruct (Hvalid _ Hkv) as [Hk _].
    simpl in Hk. unfold filter_names in Hk.
    repeat (apply elem_of_cons in Hk as [-> | Hk]; [| ]).
    + apply genre_holds; auto.
    + apply esrb_rating_holds; auto.
    + apply yor_lt_holds; auto.
    + apply yor_gt_holds; auto.
    + apply year_of_release_holds; auto.
    + by apply elem_of_nil in Hk.
Qed.

End FilterMeaning.

(** The racing games of the fixture released after 2005. *)
Lemma filter_by_params_meaning_witness :
  ∃ found,
    filter_by_params fixture_sales [("genre", "Rac"); ("yor_gt", "2005")] =
      Ok found ∧
    ∀ s, s ∈ found ↔ s ∈ fixture_sales ∧
      (∀ v, ("genre", v) ∈ [("genre", "Rac"); ("yor_gt", "2005")] →
         ∃ g, genre (game s) = PStr g ∧ ∃ a b, g = a +:+ v +:+ b) ∧
      (∀ v, ("esrb_rating", v) ∈ [("genre", "Rac"); ("yor_gt", "2005")] →
         ∃ r, esrb_rating (game s) = PStr r ∧ ∃ a b, r = a +:+ v +:+ b) ∧
      (∀ v, ("yor_lt", v) ∈ [("genre", "Rac"); ("yor_gt", "2005")] →
         ∃ y n, year_of_release (game s) = PInt y ∧ Py.int v = Some n ∧
                (y < n)%Z) ∧
      (∀ v, ("yor_gt", v) ∈ [("genre", "Rac"); ("yor_gt", "2005")] →
         ∃ y n, year_of_release (game s) = PInt y ∧ Py.int v = Some n ∧
                (y > n)%Z) ∧
      (∀ v, ("year_of_release", v) ∈ [("genre", "Rac"); ("yor_gt", "2005")] →
         ∃ n, year_of_release (game s) = PInt n ∧ Py.int v = Some n).
Proof.
  apply (filter_by_params_meaning fixture_sales
           [("genre", "Rac"); ("yor_gt", "2005")]); compute_done.
Defined.


(** ** Search engine: letter case, empty text *)

Lemma lower_char_parse (c : ascii) :
  is_space (lower_char c) = is_space c ∧
  digit_val (lower_char c) = digit_val c ∧
  bool_decide (lower_char c = "_"%char) = bool_decide (c = "_"%char) ∧
  lower_char (lower_char c) = lower_char c.
Proof. destruct c as [[] [] [] [] [] [] [] []]; by vm_compute. Qed.

Lemma lower_idemp (s : string) : lower (lower s) = lower s.
Proof.
  induction s as [|c s IH]; simpl; [done |].
  by rewrite IH, (proj2 (proj2 (proj2 (lower_char_parse c)))).
Qed.

Lemma skip_space_lower (s : string) :
  skip_space (lower s) = lower (skip_space s).
Proof.
  induction s as [|c s IH]; simpl; [done |].
  rewrite (proj1 (lower_char_parse c)). by destruct (is_space c).
Qed.

Lemma lower_empty (s : string) : lower s = EmptyString ↔ s = EmptyString.
Proof. by destruct s. Qed.

Lemma scan_digits_lower (s : string) (acc : Z) :
  scan_digits acc (lower s) =
  (λ nr, (nr.1, lower nr.2)) <$> scan_digits acc s.
Proof.
  remember (String.length s) as len eqn:Hlen. revert s acc Hlen.
  induction len as [len IH] using lt_wf_ind. intros s acc ->.
  destruct s as [|c r]; [done |]. simpl.
  destruct (lower_char_parse c) as (_ & -> & -> & _).
  destruct (digit_val c) as [d|].
  { apply (IH (String.length r)); [simpl; lia | done]. }
  case_bool_decide; [| done].
  destruct r as [|c' r']; [done |]. simpl.
  destruct (lower_char_parse c') as (_ & -> & _).
  destruct (digit_val c') as [d|]; [| done].
  apply (IH (String.length r')); [simpl; lia | done].
Qed.

Lemma scan_unsigned_lower (s : string) :
  scan_unsigned (lower s) = scan_unsigned s.
Proof.
  destruct s as [|c r]; [done |]. simpl.
  destruct (lower_char_parse c) as (_ & -> & _).
  destruct (digit_val c) as [d|]; [| done].
  rewrite scan_digits_lower.
  destruct (scan_digits d r) as [[n rest]|]; simpl; [| done].
  rewrite skip_space_lower.
  destruct (decide (skip_space rest = EmptyString)) as [Hrest|Hrest].
  - by rewrite Hrest.
  - rewrite !bool_decide_eq_false_2; [done | done |].
    by rewrite lower_empty.
Qed.

(** [int] does not see the case of letters: no letter is part of a number. *)
Lemma int_lower (s : string) : Py.int (lower s) = Py.int s.
Proof.
  unfold Py.int. rewrite skip_space_lower.
  destruct (skip_space s) as [|c r]; [done |].
  change (lower (String c r)) with (String (lower_char c) (lower r)).
  destruct c as [[] [] [] [] [] [] [] []];
    match goal with
    | |- context [lower_char ?c] =>
        let c' := eval vm_compute in (lower_char c) in
        change (lower_char c) with c'; cbv beta iota;
        first [ exact (scan_unsigned_lower (String c r))
              | by rewrite (scan_unsigned_lower r) ]
    end.
Qed.

Section SearchMore.
Context {F : Type}.
Implicit Types (s : Sale F) (sales : list (Sale F)).

(** X7: the search does not see the letter case of the text: the text and
    its lower-case form find the same records. *)
Theorem search_by_text_lower sales (text : string) :
  search_by_text sales (lower text) = search_by_text sales text.
Proof.
  unfold search_by_text, is_int, int_of. rewrite int_lower.
  case_bool_decide; [done |]. f_equal. apply List.filter_ext. intros s.
  cbn [q_holds]. unfold lookup_holds. by rewrite lower_idemp.
Qed.

(** X8: what the search returns are records of the collection, none of
    them twice when the collection has none twice; for the empty text they
    are the records that hold text in one of the five columns. *)
Theorem search_by_text_returns sales (text : string) found :
  search_by_text sales text = Ok found →
  (∀ s, s ∈ found → s ∈ sales) ∧
  (NoDup sales → NoDup found) ∧
  (text = EmptyString → ∀ s, s ∈ found ↔ s ∈ sales ∧ has_text s).
Proof.
  destruct (search_by_text_shape (F:=F) text) as [keep Hkeep].
  rewrite Hkeep. intros [= <-]. split_and!.
  { intros s. rewrite list_elem_of_In, List.filter_In, <- list_elem_of_In.
    by intros [? _]. }
  { intros Hnd. eapply sublist_NoDup; [exact Hnd | apply filter_sublist]. }
  intros -> s.
  specialize (Hkeep sales). injection Hkeep as Hkeep. rewrite <- Hkeep.
  unfold qs_filter.
  rewrite list_elem_of_In, List.filter_In, <- list_elem_of_In.
  cbn [q_holds]. rewrite !orb_true_iff, !icontains_holds.
  assert (Hocc : ∀ t, occurs_ci EmptyString t).
  { intros t. by exists EmptyString, (lower t). }
  unfold has_text, text_columns. split; intros [Hs Hcol]; (split; [done |]).
  - destruct Hcol as [[[[(t & ? & _) | (t & ? & _)] | (t & ? & _)]
                       | (t & ? & _)] | (t & ? & _)];
      eexists _, t; (split; [| done]); set_solver.
  - destruct Hcol as (column & t & Hc & Ht).
    repeat (apply elem_of_cons in Hc as [-> | Hc]; [eauto 10 |]).
    by apply elem_of_nil in Hc.
Qed.

End SearchMore.

(** The empty text finds the four sales of the fixture. *)
Lemma search_by_text_returns_witness :
  search_by_text fixture_sales EmptyString = Ok fixture_sales ∧
  (∀ s, s ∈ fixture_sales → s ∈ fixture_sales) ∧
  (NoDup fixture_sales → NoDup fixture_sales) ∧
  (∀ s, s ∈ fixture_sales ↔ s ∈ fixture_sales ∧ has_text s).
Proof.
  assert (Hfound : search_by_text fixture_sales EmptyString
                   = Ok fixture_sales) by compute_done.
  split; [exact Hfound |].
  destruct (search_by_text_returns fixture_sales EmptyString fixture_sales
              Hfound) as (Hin & Hnd & Hempty).
  split_and!; [exact Hin | exact Hnd | exact (Hempty eq_refl)].
Defined.


(** ** Genre list *)

Lemma append_nil_r (s : string) : s +:+ EmptyString = s.
Proof. induction s as [|c s IH]; [done |]. by rewrite append_cons, IH. Qed.

Section Genres.
Context `{Numeric F}.

(** X9: every text the genre list offers selects something: filtering by a
    listed genre returns at least one record, one of that very genre. *)
Theorem get_all_genres_selects (sales : list (Sale F)) (g : string) :
  PStr g ∈ get_all_genres sales →
  ∃ found s, filter_by_params sales [("genre", g)] = Ok found ∧
             s ∈ found ∧ genre (game s) = PStr g.
Proof.
  unfold get_all_genres. rewrite elem_of_remove_dups, list_elem_of_fmap.
  intros (s & Hg & Hs). eexists _, s. split_and!.
  - apply filter_by_params_valid; [compute_done |].
    apply Forall_singleton. split; [compute_done | by intros ?%(bool_decide_pack _)].
  - rewrite list_elem_of_In, List.filter_In, <- list_elem_of_In.
    split; [done |]. simpl. rewrite andb_true_r.
    apply genre_holds. exists g. split; [done |].
    exists EmptyString, EmptyString. by rewrite append_nil, append_nil_r.
  - done.
Qed.

End Genres.

(** The racing games of the fixture. *)
Lemma get_all_genres_selects_witness :
  ∃ found s, filter_by_params fixture_sales [("genre", "Racing")] = Ok found ∧
             s ∈ found ∧ genre (game s) = PStr "Racing".
Proof.
  apply (get_all_genres_selects fixture_sales "Racing"). compute_done.
Defined.


(** ** Aggregator: entries, bounds and errors *)

Lemma length_slice_to {A} (n : Z) (xs : list A) :
  length (slice_to n xs) ≤ length xs ∧
  ((0 ≤ n)%Z → length (slice_to n xs) ≤ Z.to_nat n).
Proof.
  unfold slice_to. case_bool_decide; rewrite length_take; lia.
Qed.

Lemma length_remove_dups `{EqDecision A} (l : list A) :
  length (remove_dups l) ≤ length l.
Proof.
  induction l as [|x l IH]; simpl; [done |]. case_decide; simpl; lia.
Qed.

Section AggregatorMore.
Context `{Numeric F}.
Implicit Types (df : DataFrame F) (series : Series F).

Lemma get_top_fields_list_slice series (n : Z) (field : string) :
  get_top_fields_list series n field =
  (λ kx, <["count" := PFloat kx.2]> ({[ field := kx.1 ]} : gmap _ _))
    <$> slice_to n series.
Proof.
  unfold get_top_fields_list, index, values. rewrite slice_to_zip.
  apply list_fmap_ext. by intros ? [??].
Qed.

Lemma get_top_n_fields_for_sale_type_series df (field sale_type : string)
    (n : Z) :
  get_top_n_fields_for_sale_type df field sale_type n =
  get_top_fields_series df (map_field_to_db_field field) sale_type 2 false
    ≫= (λ series, Ok (get_top_fields_list series n field)).
Proof. done. Qed.

(** X10: a smaller bound gives a prefix: for [0 <= n <= m] the answer for
    [n] is the first [n] entries of the answer for [m], and an exception for
    one is the exception for the other. *)
Theorem get_top_n_fields_for_sale_type_prefix df (field sale_type : string)
    (n m : Z) :
  (0 ≤ n ≤ m)%Z →
  get_top_n_fields_for_sale_type df field sale_type n =
  get_top_n_fields_for_sale_type df field sale_type m
    ≫= (λ top, Ok (take (Z.to_nat n) top)).
Proof.
  intros Hnm. rewrite !get_top_n_fields_for_sale_type_series.
  destruct (get_top_fields_series df _ sale_type 2 false) as [series|e];
    simpl; [| done].
  rewrite !get_top_fields_list_slice, !slice_to_nonneg by lia.
  rewrite <- fmap_take, take_take. do 3 f_equal. lia.
Qed.

(** X11: when the frame lacks a column the call raises [KeyError] for the
    missing label: for the mapped field first, for the sale column if only
    that one is missing. *)
Theorem get_top_n_fields_for_sale_type_missing_column df
    (field sale_type : string) (n : Z) :
  ¬ (map_field_to_db_field field ∈ columns df ∧ sale_type ∈ columns df) →
  get_top_n_fields_for_sale_type df field sale_type n =
    Raise (KeyError (if bool_decide (map_field_to_db_field field ∈ columns df)
                     then sale_type else map_field_to_db_field field)).
Proof.
  intros Hmiss. rewrite get_top_n_fields_for_sale_type_series.
  unfold get_top_fields_series, groupby_sum.
  case_bool_decide as Hby; simpl; [| done].
  rewrite bool_decide_eq_false_2; [done |]. intros Hcol. by apply Hmiss.
Qed.

Lemma sum_groups_index df (by_ column : string) (ks : list (pyval F)) series :
  sum_groups df by_ column ks = Ok series → index series = ks.
Proof.
  revert series. induction ks as [|k ks IH]; intros series; simpl.
  - by intros [= <-].
  - destruct (group_sum df by_ column k) as [x|]; simpl; [| done].
    destruct (sum_groups df by_ column ks) as [s|]; simpl; [| done].
    intros [= <-]. unfold index in *. simpl. f_equal. by apply IH.
Qed.

Lemma length_group_keys df (column : string) :
  length (group_keys df column) ≤ length (rows df).
Proof.
  rewrite group_keys_Permutation.
  etrans; [apply length_remove_dups |].
  etrans; [apply sublist_length, filter_sublist |]. by rewrite length_fmap.
Qed.

(** X12: an answer has at most one entry per record of the frame, and at
    most [n] entries when [n >= 0]. *)
Theorem get_top_n_fields_for_sale_type_length df (field sale_type : string)
    (n : Z) top :
  get_top_n_fields_for_sale_type df field sale_type n = Ok top →
  length top ≤ length (rows df) ∧ ((0 ≤ n)%Z → length top ≤ Z.to_nat n).
Proof.
  rewrite get_top_n_fields_for_sale_type_series.
  unfold get_top_fields_series, groupby_sum.
  repeat (case_bool_decide; simpl; [| done]).
  destruct (sum_groups df _ sale_type _) as [sums|] eqn:Hsums; simpl; [| done].
  intros [= <-]. apply sum_groups_index in Hsums.
  rewrite get_top_fields_list_slice, length_fmap.
  destruct (length_slice_to n (round 2 (sort_values false sums))) as [Hle Hn].
  split; [| done]. etrans; [apply Hle |].
  unfold round, sort_values. rewrite length_fmap.
  rewrite (Permutation_length (merge_sort_Permutation _ _)).
  rewrite <- (length_fmap fst sums). fold (index sums). rewrite Hsums.
  apply length_group_keys.
Qed.

End AggregatorMore.

(** The rating field [critic_score] is mapped to a column the fixture does
    not have. *)
Lemma get_top_n_fields_for_sale_type_missing_column_witness :
  get_top_n_fields_for_sale_type fixture_frame "critic_score" "global_sales" 3 =
  Raise (KeyError "game__critic_score").
Proof.
  apply (get_top_n_fields_for_sale_type_missing_column fixture_frame
           "critic_score" "global_sales" 3).
  intros [Hby _]. revert Hby. compute_done.
Defined.

(** The top two genres are the first two of the top three. *)
Lemma get_top_n_fields_for_sale_type_prefix_witness :
  get_top_n_fields_for_sale_type fixture_frame "genre" "global_sales" 2 =
  get_top_n_fields_for_sale_type fixture_frame "genre" "global_sales" 3
    ≫= (λ top, Ok (take 2 top)).
Proof.
  apply (get_top_n_fields_for_sale_type_prefix fixture_frame "genre"
           "global_sales" 2 3). lia.
Defined.

(** The three entries of the fixture, from six records. *)
Lemma get_top_n_fields_for_sale_type_length_witness :
  ∃ top,
    get_top_n_fields_for_sale_type fixture_frame "genre" "global_sales" 5 =
      Ok top ∧
    length top ≤ 6 ∧ length top ≤ 5.
Proof.
  destruct (get_top_n_fields_for_sale_type fixture_frame "genre"
              "global_sales" 5) as [top|e] eqn:Htop;
    [| by vm_compute in Htop].
  exists top. split; [done |].
  destruct (get_top_n_fields_for_sale_type_length fixture_frame "genre"
              "global_sales" 5 top Htop) as [Hrows Hn].
  split; [exact Hrows | apply Hn; lia].
Defined.


Section SeriesOrder.
Context `{NumericOrder F}.
Implicit Types (df : DataFrame F).

#[local] Instance sort_order_total asc : Total (value_order (F:=F) asc).
Proof. intros a b. unfold value_order. destruct asc; apply fle_total. Qed.

#[local] Instance sort_order_trans asc : Transitive (value_order (F:=F) asc).
Proof.
  intros a b c. unfold value_order. destruct asc; eauto using fle_trans.
Qed.

(** X13: [get_top_fields_series] with either sort direction and any number
    of decimals: both directions give the same entries, each the sum of a
    group rounded to [round] places, in ascending order of the sums for
    [sort_ascending=True] and in descending order otherwise. *)
Theorem get_top_fields_series_directions df (by_ column : string)
    (decimals : Z) :
  by_ ∈ columns df → column ∈ columns df → numeric_column df column →
  ∃ up down : list (pyval F * F),
    get_top_fields_series df by_ column decimals true =
      Ok ((λ kx, (kx.1, fround decimals kx.2)) <$> up) ∧
    get_top_fields_series df by_ column decimals false =
      Ok ((λ kx, (kx.1, fround decimals kx.2)) <$> down) ∧
    up ≡ₚ down ∧
    (∀ k x, (k, x) ∈ up → x = fsum (group_values df by_ column k)) ∧
    StronglySorted (λ a b, fle a.2 b.2 = true) up ∧
    StronglySorted (λ a b, fle b.2 a.2 = true) down.
Proof.
  intros Hby Hcol Hnum.
  set (sums := (λ k, (k, fsum (group_values df by_ column k)))
                 <$> group_keys df by_).
  assert (Hseries : ∀ asc, get_top_fields_series df by_ column decimals asc =
                           Ok (round decimals (sort_values asc sums))).
  { intros asc. unfold get_top_fields_series, groupby_sum.
    rewrite !bool_decide_eq_true_2 by done. simpl.
    by rewrite sum_groups_ok. }
  exists (sort_values true sums), (sort_values false sums).
  split_and!; try apply Hseries.
  - unfold sort_values. by rewrite !merge_sort_Permutation.
  - intros k x. unfold sort_values. rewrite merge_sort_Permutation.
    unfold sums. by intros (k' & [= -> ->] & _)%list_elem_of_fmap.
  - apply (StronglySorted_merge_sort (value_order true)).
  - apply (StronglySorted_merge_sort (value_order false)).
Qed.

End SeriesOrder.

(** The genres of the fixture in both directions, to one place. *)
Lemma get_top_fields_series_directions_witness :
  ∃ up down : list (pyval decimal * decimal),
    get_top_fields_series fixture_frame "game__genre" "global_sales" 1 true =
      Ok ((λ kx, (kx.1, fround 1 kx.2)) <$> up) ∧
    get_top_fields_series fixture_frame "game__genre" "global_sales" 1 false =
      Ok ((λ kx, (kx.1, fround 1 kx.2)) <$> down) ∧
    up ≡ₚ down ∧
    (∀ k x, (k, x) ∈ up →
            x = fsum (group_values fixture_frame "game__genre"
                        "global_sales" k)) ∧
    StronglySorted (λ a b, fle a.2 b.2 = true) up ∧
    StronglySorted (λ a b, fle b.2 a.2 = true) down.
Proof.
  apply (get_top_fields_series_directions fixture_frame "game__genre"
           "global_sales" 1).
  - compute_done.
  - compute_done.
  - apply fixture_frame_numeric.
Defined.


(** ** Managers: what a creation writes *)

Section StoreMore.
Context {F : Type}.
Variable slugify : pyval F → string.
Variable write_error : DB F → row F → option exn.
Implicit Types (db : DB F) (kwargs : gmap string (pyval F)).

(** The three writes, for an instance without primary key: what each
    leaves as it was and what it adds. *)
Lemma Rating_save_inv (r : Rating F) db res db' :
  rating_pk r = None → Rating_save write_error r db = (res, db') →
  games db' = games db ∧ sales db' = sales db ∧
  match res with
  | Ok r' =>
      ∃ pk, ratings db !! pk = None ∧ ratings db' = <[pk := r']> (ratings db) ∧
        r' = {| rating_pk := Some pk; critic_score := critic_score r;
                critic_count := critic_count r; user_score := user_score r;
                user_count := user_count r |}
  | Raise _ => ratings db' = ratings db
  end.
Proof.
  intros Hpk. unfold Rating_save.
  destruct (write_error db (RatingRow r)); intros [= <- <-]; [done |].
  simpl. split_and!; try done. rewrite Hpk.
  eexists. split_and!; [apply pk_for_new | done | done].
Qed.

Lemma Game_save_inv (g : Game F) db res db' :
  game_pk g = None → Game_save slugify write_error g db = (res, db') →
  ratings db' = ratings db ∧ sales db' = sales db ∧
  match res with
  | Ok g' =>
      ∃ pk, games db !! pk = None ∧ games db' = <[pk := g']> (games db) ∧
        unsaved_rating (rating g) = false ∧
        g' = {| game_pk := Some pk;
                game_slug := slugify (name g) +:+ "-" +:+ slugify (platform g);
                name := name g; platform := platform g;
                publisher := publisher g; developer := developer g;
                genre := genre g; year_of_release := year_of_release g;
                rating := rating g; esrb_rating := esrb_rating g |}
  | Raise _ => games db' = games db
  end.
Proof.
  intros Hpk. unfold Game_save. simpl.
  destruct (unsaved_rating (rating g)) eqn:Hr; [by intros [= <- <-] |].
  destruct (write_error db _); intros [= <- <-]; [done |].
  simpl. split_and!; try done. rewrite Hpk.
  eexists. split_and!; [apply pk_for_new | done | done | done].
Qed.

Lemma Sale_save_inv (s : Sale F) db res db' :
  sale_pk s = None → Sale_save write_error s db = (res, db') →
  ratings db' = ratings db ∧ games db' = games db ∧
  match res with
  | Ok s' =>
      ∃ pk, sales db !! pk = None ∧ sales db' = <[pk := s']> (sales db) ∧
        is_Some (game_pk (game s)) ∧
        s' = {| sale_pk := Some pk;
                sale_slug := game_slug (game s) +:+ "-sales";
                game := game s; na_sales := na_sales s;
                eu_sales := eu_sales s; jp_sales := jp_sales s;
                other_sales := other_sales s;
                global_sales := global_sales s |}
  | Raise _ => sales db' = sales db
  end.
Proof.
  intros Hpk. unfold Sale_save.
  case_bool_decide as Hg; [by intros [= <- <-] |].
  destruct (write_error db _); intros [= <- <-]; [done |].
  simpl. split_and!; try done. rewrite Hpk.
  eexists. split_and!; [apply pk_for_new | done | | done].
  by destruct (game_pk (game s)).
Qed.

(** The rows a creation writes, from the keyword arguments and the keys. *)
#[local] Abbreviation written_rating kwargs rk :=
  {| rating_pk := Some rk;
     critic_score := get kwargs "critic_score" PNone;
     critic_count := get kwargs "critic_count" PNone;
     user_score := get kwargs "user_score" PNone;
     user_count := get kwargs "user_count" PNone |}.

#[local] Abbreviation written_game kwargs rk gk :=
  {| game_pk := Some gk;
     game_slug := slugify (get kwargs "name" PNone) +:+ "-" +:+
                  slugify (get kwargs "platform" (PStr EmptyString));
     name := get kwargs "name" PNone;
     platform := get kwargs "platform" (PStr EmptyString);
     publisher := get kwargs "publisher" (PStr EmptyString);
     developer := get kwargs "developer" (PStr EmptyString);
     genre := get kwargs "genre" (PStr EmptyString);
     year_of_release := get kwargs "year_of_release" PNone;
     rating := Some (written_rating kwargs rk);
     esrb_rating := get kwargs "esrb_rating" (PStr EmptyString) |}.

#[local] Abbreviation written_sale kwargs rk gk sk :=
  {| sale_pk := Some sk;
     sale_slug := (slugify (get kwargs "name" PNone) +:+ "-" +:+
                   slugify (get kwargs "platform" (PStr EmptyString)))
                  +:+ "-sales";
     game := written_game kwargs rk gk;
     na_sales := get kwargs "na_sales" PNone;
     eu_sales := get kwargs "eu_sales" PNone;
     jp_sales := get kwargs "jp_sales" PNone;
     other_sales := get kwargs "other_sales" PNone;
     global_sales := get kwargs "global_sales" PNone |}.

(** The ways [GameManager.create] ends: the rating refused; the rating
    written and the game refused; both written. *)
Lemma GameManager_create_trace kwargs db res db' :
  GameManager_create slugify write_error kwargs db = (res, db') →
  sales db' = sales db ∧
  ((∃ e, res = Raise e ∧ ratings db' = ratings db ∧ games db' = games db) ∨
   ∃ rk, ratings db !! rk = None ∧
     ratings db' = <[rk := written_rating kwargs rk]> (ratings db) ∧
     ((∃ e, res = Raise e ∧ games db' = games db) ∨
      ∃ gk, games db !! gk = None ∧
        games db' = <[gk := written_game kwargs rk gk]> (games db) ∧
        res = Ok (written_game kwargs rk gk))).
Proof.
  unfold GameManager_create.
  match goal with |- context [Rating_save _ ?r0 db] => set (r := r0) end.
  destruct (Rating_save write_error r db) as [res1 db1] eqn:Hr.
  apply Rating_save_inv in Hr as (Hg1 & Hs1 & Hr); [| done].
  destruct res1 as [r'|e].
  - destruct Hr as (rk & Hnew & Hratings & ->).
    match goal with |- context [Game_save _ _ ?g0 db1] => set (g := g0) end.
    intros (Hr2 & Hs2 & Hg)%Game_save_inv; [| done].
    split; [congruence |]. right. exists rk. rewrite Hr2.
    split_and!; [done | done |].
    destruct res as [g'|e].
    + destruct Hg as (gk & Hgnew & Hgames & _ & ->). right. exists gk.
      rewrite <- Hg1. by split_and!.
    + left. exists e. split; [done | congruence].
  - intros [= <- <-]. split; [done |]. left. by exists e.
Qed.

Lemma get_delete_ne kwargs (k k' : string) (d : pyval F) :
  k ≠ k' → get (delete k kwargs) k' d = get kwargs k' d.
Proof. intros Hne. unfold get. by rewrite lookup_delete_ne. Qed.

(** The ways [SaleManager.create] ends: as [GameManager.create] without a
    game, or with the game written and the sale refused or written. *)
Lemma SaleManager_create_trace kwargs db res db' :
  SaleManager_create slugify write_error kwargs db = (res, db') →
  (∃ e, res = Raise e ∧ sales db' = sales db ∧
        ratings db' = ratings db ∧ games db' = games db) ∨
  ∃ rk, ratings db !! rk = None ∧
    ratings db' = <[rk := written_rating kwargs rk]> (ratings db) ∧
    ((∃ e, res = Raise e ∧ sales db' = sales db ∧ games db' = games db) ∨
     ∃ gk, games db !! gk = None ∧
       games db' = <[gk := written_game kwargs rk gk]> (games db) ∧
       ((∃ e, res = Raise e ∧ sales db' = sales db) ∨
        ∃ sk, sales db !! sk = None ∧
          sales db' = <[sk := written_sale kwargs rk gk sk]> (sales db) ∧
          res = Ok (written_sale kwargs rk gk sk))).
Proof.
  unfold SaleManager_create, pop. simpl.
  match goal with
  | |- context [GameManager_create _ _ ?kw db] => set (kwargs' := kw)
  end.
  assert (Hget : ∀ k d, k ∉ sale_keywords → get kwargs' k d = get kwargs k d).
  { intros k d Hk. unfold kwargs', sale_keywords in *.
    rewrite !get_delete_ne; [done | | | | |]; intros <-; apply Hk;
      compute_done. }
  destruct (GameManager_create slugify write_error kwargs' db)
    as [res1 db1] eqn:Hcreate.
  apply GameManager_create_trace in Hcreate as [Hs1 Hcreate].
  rewrite !Hget in Hcreate by compute_done.
  intros Hsave.
  destruct Hcreate as [(e & -> & Hr & Hg) | (rk & Hrnew & Hratings & Hcreate)].
  { injection Hsave as <- <-. left. by exists e. }
  right. exists rk.
  destruct Hcreate as [(e & -> & Hg) | (gk & Hgnew & Hgames & ->)].
  { injection Hsave as <- <-. split_and!; [done | done |]. left. by exists e. }
  apply Sale_save_inv in Hsave as (Hr2 & Hg2 & Hs); [| done].
  simpl in Hs. rewrite !lookup_delete_ne in Hs by done.
  rewrite Hr2, Hg2. split_and!; [done | done |]. right. exists gk.
  split_and!; [done | done |].
  destruct res as [s'|e].
  - destruct Hs as (sk & Hsnew & Hsales & _ & ->). right. exists sk.
    rewrite <- Hs1. by split_and!.
  - left. exists e. split; [done | congruence].
Qed.

(** X14: a successful [SaleManager.create] adds exactly one row to each
    table, each under a key that was free: the sale it returns, the game
    of that sale and the rating of that game. *)
Theorem SaleManager_create_rows kwargs db s db' :
  SaleManager_create slugify write_error kwargs db = (Ok s, db') →
  ∃ rk gk sk r,
    ratings db !! rk = None ∧ games db !! gk = None ∧ sales db !! sk = None ∧
    ratings db' = <[rk := r]> (ratings db) ∧
    games db' = <[gk := game s]> (games db) ∧
    sales db' = <[sk := s]> (sales db) ∧
    sale_pk s = Some sk ∧ game_pk (game s) = Some gk ∧
    rating (game s) = Some r ∧ rating_pk r = Some rk.
Proof.
  intros [(e & ? & _) | (rk & Hr & Hrs & [(e & ? & _) | (gk & Hg & Hgs &
    [(e & ? & _) | (sk & Hs & Hss & [= ->])])])]%SaleManager_create_trace;
    try done.
  exists rk, gk, sk. eexists. by split_and!.
Qed.

(** X15: the attributes of a created sale.  Both slugs are derived: the
    game's from its name and platform, the sale's from the game's; the text
    attributes of the game default to the empty text, its name and year and
    the five sales figures to [None]. *)
Theorem SaleManager_create_attributes kwargs db s db' :
  SaleManager_create slugify write_error kwargs db = (Ok s, db') →
  sale_slug s = game_slug (game s) +:+ "-sales" ∧
  game_slug (game s) =
    slugify (name (game s)) +:+ "-" +:+ slugify (platform (game s)) ∧
  name (game s) = get kwargs "name" PNone ∧
  year_of_release (game s) = get kwargs "year_of_release" PNone ∧
  Forall (λ ka, ka.2 (game s) = get kwargs ka.1 (PStr EmptyString))
    [("platform", platform); ("publisher", publisher);
     ("developer", developer); ("genre", genre);
     ("esrb_rating", esrb_rating)] ∧
  Forall (λ ka, ka.2 s = get kwargs ka.1 PNone)
    [("na_sales", na_sales); ("eu_sales", eu_sales); ("jp_sales", jp_sales);
     ("other_sales", other_sales); ("global_sales", global_sales)].
Proof.
  intros [(e & ? & _) | (rk & Hr & Hrs & [(e & ? & _) | (gk & Hg & Hgs &
    [(e & ? & _) | (sk & Hs & Hss & [= ->])])])]%SaleManager_create_trace;
    try done.
  simpl. split_and!; try done; by repeat constructor.
Qed.

Lemma insert_rating_wf db db' (rk : nat) (r : Rating F) :
  db_wf db → rating_pk r = Some rk →
  ratings db' = <[rk := r]> (ratings db) →
  games db' = games db → sales db' = sales db → db_wf db'.
Proof.
  intros (Hwr & Hwg & Hws) Hpk Hr Hg Hs. unfold db_wf.
  rewrite Hr, Hg, Hs. split_and!; [| | done].
  - intros k r' [[<- <-] | [_ Hk]]%lookup_insert_Some; [done | by apply Hwr].
  - intros k g Hk. destruct (Hwg k g Hk) as [Hgk Hrg]. split; [done |].
    intros r' Hr'. destruct (Hrg r' Hr') as (rk' & ? & ?). exists rk'.
    split; [done |]. rewrite lookup_insert_is_Some.
    destruct (decide (rk = rk')); auto.
Qed.

Lemma insert_game_wf db db' (rk gk : nat) (r : Rating F) (g : Game F) :
  db_wf db → game_pk g = Some gk → rating g = Some r →
  rating_pk r = Some rk → is_Some (ratings db !! rk) →
  ratings db' = ratings db → games db' = <[gk := g]> (games db) →
  sales db' = sales db → db_wf db'.
Proof.
  intros (Hwr & Hwg & Hws) Hpk Hrg Hrk Hin Hr Hg Hs. unfold db_wf.
  rewrite Hr, Hg, Hs. split_and!; [done | |].
  - intros k g' [[<- <-] | [_ Hk]]%lookup_insert_Some; [| by apply Hwg].
    split; [done |]. intros r' Hr'. exists rk. split; [congruence | done].
  - intros k s Hk. destruct (Hws k s Hk) as [Hsk (gk' & ? & ?)].
    split; [done |]. exists gk'. split; [done |].
    rewrite lookup_insert_is_Some. destruct (decide (gk = gk')); auto.
Qed.

Lemma insert_sale_wf db db' (gk sk : nat) (s : Sale F) :
  db_wf db → sale_pk s = Some sk → game_pk (game s) = Some gk →
  is_Some (games db !! gk) →
  ratings db' = ratings db → games db' = games db →
  sales db' = <[sk := s]> (sales db) → db_wf db'.
Proof.
  intros (Hwr & Hwg & Hws) Hpk Hgk Hin Hr Hg Hs. unfold db_wf.
  rewrite Hr, Hg, Hs. split_and!; [done | done |].
  intros k s' [[<- <-] | [_ Hk]]%lookup_insert_Some; [| by apply Hws].
  split; [done |]. by exists gk.
Qed.

(** X16: a creation keeps the references of the store, however it ends:
    if every row was filed under its own key, every game's rating and every
    sale's game were stored rows, then the same holds afterwards; and no
    row that was there is changed or removed. *)
Theorem SaleManager_create_keeps_references kwargs db res db' :
  db_wf db →
  SaleManager_create slugify write_error kwargs db = (res, db') →
  db_wf db' ∧
  ratings db ⊆ ratings db' ∧ games db ⊆ games db' ∧ sales db ⊆ sales db'.
Proof.
  intros Hwf Hcreate. apply SaleManager_create_trace in Hcreate
    as [(e & _ & Hs & Hr & Hg) | (rk & Hrk & Hr & Hcreate)].
  { rewrite Hs, Hr, Hg. split; [| done].
    destruct Hwf as (? & ? & ?). unfold db_wf. by rewrite Hs, Hr, Hg. }
  set (db1 := {| ratings := ratings db'; games := games db;
                 sales := sales db |}).
  assert (Hwf1 : db_wf db1).
  { by apply (insert_rating_wf db db1 rk (written_rating kwargs rk)). }
  assert (Hsub : ratings db ⊆ ratings db')
    by (rewrite Hr; by apply insert_subseteq).
  destruct Hcreate as [(e & _ & Hs & Hg) | (gk & Hgk & Hg & Hcreate)].
  { rewrite Hs, Hg. split; [| done].
    destruct Hwf1 as (? & ? & ?). unfold db_wf. by rewrite Hs, Hg. }
  set (db2 := {| ratings := ratings db'; games := games db';
                 sales := sales db |}).
  assert (Hwf2 : db_wf db2).
  { apply (insert_game_wf db1 db2 rk gk (written_rating kwargs rk)
             (written_game kwargs rk gk)); try done.
    simpl. rewrite Hr, lookup_insert_eq. by eexists. }
  assert (Hsubg : games db ⊆ games db')
    by (rewrite Hg; by apply insert_subseteq).
  destruct Hcreate as [(e & _ & Hs) | (sk & Hsk & Hs & _)].
  { rewrite Hs. split; [| done].
    destruct Hwf2 as (? & ? & ?). unfold db_wf. by rewrite Hs. }
  split_and!; [| done | done | rewrite Hs; by apply insert_subseteq].
  apply (insert_sale_wf db2 db' gk sk (written_sale kwargs rk gk sk));
    try done.
  simpl. rewrite Hg, lookup_insert_eq. by eexists.
Qed.

(** X17: nothing is rolled back.  When [SaleManager.create] raises, no sale
    was written, and the store is as before, or holds one new rating, or
    holds one new rating and one new game that refers to it. *)
Theorem SaleManager_create_no_rollback kwargs db (e : exn) db' :
  SaleManager_create slugify write_error kwargs db = (Raise e, db') →
  sales db' = sales db ∧
  ((ratings db' = ratings db ∧ games db' = games db) ∨
   ∃ rk r, ratings db !! rk = None ∧ ratings db' = <[rk := r]> (ratings db) ∧
     (games db' = games db ∨
      ∃ gk g, games db !! gk = None ∧ games db' = <[gk := g]> (games db) ∧
              rating g = Some r)).
Proof.
  intros [(e1 & _ & ? & ? & ?) | (rk & Hr & Hrs & [(e1 & _ & ? & ?) |
    (gk & Hg & Hgs & [(e1 & _ & ?) | (sk & _ & _ & ?)])])]%SaleManager_create_trace;
    try done.
  - split; [done |]. by left.
  - split; [done |]. right. eexists rk, _. split_and!; [done | done |].
    by left.
  - split; [done |]. right. eexists rk, _. split_and!; [done | done |].
    right. by eexists gk, _.
Qed.

(** X18: the managers read their own keywords and no other: a keyword
    that is none of the eleven of the game or the five of the sale changes
    nothing, whatever its value. *)
Theorem create_ignores_other_keywords kwargs (key : string) (v : pyval F) db :
  key ∉ game_keywords → key ∉ sale_keywords →
  GameManager_create slugify write_error (<[key := v]> kwargs) db =
    GameManager_create slugify write_error kwargs db ∧
  SaleManager_create slugify write_error (<[key := v]> kwargs) db =
    SaleManager_create slugify write_error kwargs db.
Proof.
  intros Hgame Hsale.
  assert (Hget : ∀ kw k d, k ∈ game_keywords ∨ k ∈ sale_keywords →
                           get (<[key := v]> kw) k d = get kw k d).
  { intros kw k d Hk. unfold get. rewrite lookup_insert_ne; [done |].
    intros ->. by destruct Hk. }
  assert (Hcreate : ∀ kw, GameManager_create slugify write_error
                            (<[key := v]> kw) db =
                          GameManager_create slugify write_error kw db).
  { intros kw. unfold GameManager_create.
    by rewrite !Hget by (left; compute_done). }
  split; [apply Hcreate |].
  unfold SaleManager_create, pop. simpl.
  assert (Hdel : ∀ (k : string) (kw : gmap string (pyval F)),
            k ∈ sale_keywords →
            delete k (<[key := v]> kw) = <[key := v]> (delete k kw)).
  { intros k kw Hk. apply delete_insert_ne. by intros ->. }
  rewrite !Hdel, Hcreate by compute_done.
  by rewrite !lookup_insert_ne by (intros ->; apply Hsale; compute_done).
Qed.

End StoreMore.


(** ** The text of a rating *)

Lemma filter_Permutation {A} (f : A → bool) (l k : list A) :
  l ≡ₚ k → List.filter f l ≡ₚ List.filter f k.
Proof.
  induction 1 as [|x l k _ IH|x y l|l k m _ IH1 _ IH2]; simpl.
  - done.
  - destruct (f x); by rewrite IH.
  - destruct (f x), (f y); by try apply Permutation_swap.
  - by etrans.
Qed.

Lemma filter_none {A} (f : A → bool) (l : list A) :
  (∀ x, x ∈ l → f x = false) → List.filter f l = [].
Proof.
  induction l as [|x l IH]; intros Hl; simpl; [done |].
  rewrite (Hl x) by left. apply IH. intros y Hy. apply Hl. by right.
Qed.

Section RatingText.
Context {F : Type}.
Variable slugify : pyval F → string.
Variable write_error : DB F → row F → option exn.
Variable str : pyval F → string.
Variable unsaved_lookup : get_error.
Implicit Types (db : DB F) (kwargs : gmap string (pyval F)).

(** In a store that keeps its references no game refers to a key of the
    ratings table that is free. *)
Lemma no_game_refers_to_free_key db (rk : nat) :
  db_wf db → ratings db !! rk = None →
  List.filter (refers_to rk) (map_to_list (games db)).*2 = [].
Proof.
  intros (_ & Hwg & _) Hfree. apply filter_none.
  intros g ([k g'] & -> & Hk%elem_of_map_to_list)%list_elem_of_fmap. simpl.
  unfold refers_to. destruct (rating g') as [r|] eqn:Hr; [| done].
  destruct (Hwg k g' Hk) as [_ Hrg].
  destruct (Hrg r Hr) as (rk' & Hrk' & [r' Hin]).
  apply bool_decide_eq_false_2. intros Hrk. congruence.
Qed.

(** X19: the text of the rating a creation writes.  In a store that keeps
    its references, the rating that [GameManager.create] files under a free
    key reads [Rating for <name>] with the name of the created game, and
    [Rating for undefined] when the game was refused. *)
Theorem Rating_str_after_create kwargs db res db' (rk : nat) (r : Rating F) :
  db_wf db →
  GameManager_create slugify write_error kwargs db = (res, db') →
  ratings db !! rk = None → ratings db' !! rk = Some r →
  Rating___str__ str unsaved_lookup r db' =
    inr (match res with
         | Ok g => "Rating for " +:+ str (name g)
         | Raise _ => "Rating for undefined"
         end).
Proof.
  intros Hwf [Hs Hcreate]%GameManager_create_trace Hfree Hr.
  destruct Hcreate as [(e & -> & Hrs & _) | (rk' & Hrk' & Hrs & Hcreate)].
  { rewrite Hrs in Hr. congruence. }
  rewrite Hrs in Hr. apply lookup_insert_Some in Hr as [[-> <-] | [_ Hr]];
    [| congruence].
  unfold Rating___str__, Game_objects_get. simpl.
  destruct Hcreate as [(e & -> & Hg) | (gk & Hgk & Hg & ->)].
  - rewrite Hg, no_game_refers_to_free_key by done. done.
  - match type of Hg with _ = <[_ := ?g0]> _ => set (g := g0) in * end.
    assert (Hfilter : List.filter (refers_to rk) (map_to_list (games db')).*2
                      ≡ₚ [g]).
    { rewrite Hg. rewrite (filter_Permutation _ _ _
        (fmap_Permutation snd _ _ (map_to_list_insert _ _ _ Hgk))).
      simpl. unfold refers_to at 1. simpl.
      rewrite bool_decide_eq_true_2 by done.
      by rewrite no_game_refers_to_free_key. }
    apply Permutation_singleton_r in Hfilter. by rewrite Hfilter.
Qed.

End RatingText.


(** ** The creations of the fixture *)

Lemma empty_db_wf : db_wf empty_db.
Proof.
  unfold db_wf, empty_db. simpl.
  by split_and!; intros ??; rewrite lookup_empty.
Qed.

(** One sale created in the empty store: three rows. *)
Lemma SaleManager_create_rows_witness :
  ∃ s db',
    SaleManager_create slugify_value declared_constraints fixture_kwargs
      empty_db = (Ok s, db') ∧
    ∃ rk gk sk r,
      ratings empty_db !! rk = None ∧ games empty_db !! gk = None ∧
      sales empty_db !! sk = None ∧
      ratings db' = <[rk := r]> (ratings empty_db) ∧
      games db' = <[gk := game s]> (games empty_db) ∧
      sales db' = <[sk := s]> (sales empty_db) ∧
      sale_pk s = Some sk ∧ game_pk (game s) = Some gk ∧
      rating (game s) = Some r ∧ rating_pk r = Some rk.
Proof.
  destruct (SaleManager_create slugify_value declared_constraints
              fixture_kwargs empty_db) as [[s|e] db'] eqn:Hcreate;
    [| by vm_compute in Hcreate].
  exists s, db'. split; [done |].
  by apply (SaleManager_create_rows slugify_value declared_constraints
              fixture_kwargs empty_db).
Defined.

(** The slugs and attributes of that sale. *)
Lemma SaleManager_create_attributes_witness :
  ∃ s db',
    SaleManager_create slugify_value declared_constraints fixture_kwargs
      empty_db = (Ok s, db') ∧
    sale_slug s = "wii-sports-wii-sales" ∧
    game_slug (game s) = "wii-sports-wii" ∧
    publisher (game s) = PStr EmptyString ∧
    na_sales s = PNone ∧ global_sales s = PFloat (Decimal 82530).
Proof.
  destruct (SaleManager_create slugify_value declared_constraints
              fixture_kwargs empty_db) as [[s|e] db'] eqn:Hcreate;
    [| by vm_compute in Hcreate].
  exists s, db'. split; [done |].
  destruct (SaleManager_create_attributes slugify_value declared_constraints
              fixture_kwargs empty_db s db' Hcreate)
    as (Hslug & Hgslug & Hname & _ & Hgame & Hsale).
  rewrite !Forall_cons in Hgame. rewrite !Forall_cons in Hsale.
  simpl in Hgame, Hsale.
  destruct Hgame as (Hplatform & Hpublisher & _).
  destruct Hsale as (Hna & _ & _ & _ & Hglobal & _).
  rewrite Hslug, Hgslug, Hname, Hplatform, Hpublisher, Hna, Hglobal.
  by vm_compute.
Defined.

(** The empty store keeps its references, and so does it after a sale. *)
Lemma SaleManager_create_keeps_references_witness :
  ∃ res db',
    SaleManager_create slugify_value declared_constraints fixture_kwargs
      empty_db = (res, db') ∧
    db_wf db' ∧ ratings empty_db ⊆ ratings db' ∧
    games empty_db ⊆ games db' ∧ sales empty_db ⊆ sales db'.
Proof.
  destruct (SaleManager_create slugify_value declared_constraints
              fixture_kwargs empty_db) as [res db'] eqn:Hcreate.
  exists res, db'. split; [done |].
  apply (SaleManager_create_keeps_references slugify_value
           declared_constraints fixture_kwargs empty_db res db');
    [apply empty_db_wf | done].
Defined.

(** A creation without a name: the game is refused, the rating stays. *)
Lemma SaleManager_create_no_rollback_witness :
  ∃ db',
    SaleManager_create slugify_value declared_constraints
      (delete "name" fixture_kwargs) empty_db = (Raise IntegrityError, db') ∧
    size (ratings db') = 1 ∧
    sales db' = sales empty_db ∧
    ((ratings db' = ratings empty_db ∧ games db' = games empty_db) ∨
     ∃ rk r, ratings empty_db !! rk = None ∧
       ratings db' = <[rk := r]> (ratings empty_db) ∧
       (games db' = games empty_db ∨
        ∃ gk g, games empty_db !! gk = None ∧
                games db' = <[gk := g]> (games empty_db) ∧
                rating g = Some r)).
Proof.
  destruct (SaleManager_create slugify_value declared_constraints
              (delete "name" fixture_kwargs) empty_db) as [res db']
    eqn:Hcreate.
  assert (Hres : res = Raise IntegrityError ∧ size (ratings db') = 1).
  { by vm_compute in Hcreate; injection Hcreate as <- <-. }
  destruct Hres as [-> Hsize]. exists db'. split_and!; [done | done | ..];
    by apply (SaleManager_create_no_rollback slugify_value
                declared_constraints (delete "name" fixture_kwargs)
                empty_db IntegrityError db').
Defined.

(** A [slug] among the keywords is not used. *)
Lemma create_ignores_other_keywords_witness :
  GameManager_create slugify_value declared_constraints
    (<["slug" := PStr "my-slug"]> fixture_kwargs) empty_db =
    GameManager_create slugify_value declared_constraints fixture_kwargs
      empty_db ∧
  SaleManager_create slugify_value declared_constraints
    (<["slug" := PStr "my-slug"]> fixture_kwargs) empty_db =
    SaleManager_create slugify_value declared_constraints fixture_kwargs
      empty_db.
Proof.
  apply (create_ignores_other_keywords slugify_value declared_constraints
           fixture_kwargs "slug" (PStr "my-slug") empty_db); compute_done.
Defined.

(** The rating of the fixture's game. *)
Lemma Rating_str_after_create_witness :
  ∃ g db' r,
    GameManager_create slugify_value declared_constraints fixture_kwargs
      empty_db = (Ok g, db') ∧
    ratings db' !! 0 = Some r ∧
    Rating___str__ str_of DoesNotExist r db' = inr "Rating for Wii Sports".
Proof.
  destruct (GameManager_create slugify_value declared_constraints
              fixture_kwargs empty_db) as [[g|e] db'] eqn:Hcreate;
    [| by vm_compute in Hcreate].
  destruct (ratings db' !! 0) as [r|] eqn:Hr;
    [| by vm_compute in Hcreate; injection Hcreate as <- <-].
  exists g, db', r. split_and!; [done | done |].
  rewrite (Rating_str_after_create slugify_value declared_constraints str_of
             DoesNotExist fixture_kwargs empty_db (Ok g) db' 0 r
             empty_db_wf Hcreate eq_refl Hr).
  by vm_compute in Hcreate; injection Hcreate as <- _.
Defined.


(** ** Saving again *)

Section Saving.
Context {F : Type}.
Variable slugify : pyval F → string.
Variable write_error : DB F → row F → option exn.
Implicit Types (db : DB F) (g : Game F) (s : Sale F).

(** X20: saving again changes nothing: an accepted [save] of the game an
    accepted [save] returned gives back that game and leaves the store as
    it is. *)
Theorem Game_save_again g db g' db' g'' db'' :
  Game_save slugify write_error g db = (Ok g', db') →
  Game_save slugify write_error g' db' = (Ok g'', db'') →
  g'' = g' ∧ db'' = db'.
Proof.
  unfold Game_save at 1. simpl.
  destruct (unsaved_rating (rating g)) eqn:Hr; [done |].
  destruct (write_error db _); [done |]. intros [= <- <-].
  unfold Game_save. simpl. rewrite Hr.
  destruct (write_error _ _); [done |]. intros [= <- <-].
  split; [done |]. simpl. f_equal. apply insert_insert_eq.
Qed.

End Saving.

(** The game of the fixture, saved twice. *)
Lemma Game_save_again_witness :
  ∃ g' db',
    Game_save slugify_value declared_constraints
      (a_game "Tetris" "GB" "Nintendo" "Puzzle" 1989) empty_db = (Ok g', db') ∧
    Game_save slugify_value declared_constraints g' db' = (Ok g', db').
Proof.
  destruct (Game_save slugify_value declared_constraints
              (a_game "Tetris" "GB" "Nintendo" "Puzzle" 1989) empty_db)
    as [[g'|e] db'] eqn:Hsave; [| by vm_compute in Hsave].
  destruct (Game_save slugify_value declared_constraints g' db')
    as [[g''|e] db''] eqn:Hagain.
  - exists g', db'. split; [done |].
    by destruct (Game_save_again slugify_value declared_constraints
                   _ _ _ _ _ _ Hsave Hagain) as [-> ->].
  - exfalso. vm_compute in Hsave. injection Hsave as <- <-.
    by vm_compute in Hagain.
Defined.
